(** * Incremental-decoding adapter and training mask of the OPT examples

    A shallow embedding of [examples/opt/model/test_text_gen.py] (the
    [WrappedInferenceFunc] adapter, the three backends built by
    [get_model] and [get_model] itself) and of the weight-decay mask and
    the timed loop of [examples/opt/opt.py].

    Python code that mutates closure state or calls an external
    collaborator is written in a state-and-exception monad; a raised
    exception keeps the state reached at the point of the raise. *)

From Stdlib Require Import Ascii String List ZArith Lia Bool Arith.
Import ListNotations.
Local Open Scope Z_scope.

(** ** Exceptions and the effect monad *)

Inductive exn : Type :=
| NotImplementedError
| UnboundLocalError (var : string)
| IndexError
| ExternalError (msg : string).

Definition result (A : Type) : Type := (exn + A)%type.

Definition M (St A : Type) : Type := St -> result A * St.

Definition mret {St A} (a : A) : M St A := fun s => (inr a, s).

Definition raise {St A} (e : exn) : M St A := fun s => (inl e, s).

Definition bind {St A B} (m : M St A) (k : A -> M St B) : M St B :=
  fun s =>
    match m s with
    | (inl e, s') => (inl e, s')
    | (inr a, s') => k a s'
    end.

Definition lift_result {St A} (r : result A) : M St A := fun s => (r, s).

Notation "x <- m ;; k" := (bind m (fun x => k))
  (at level 61, m at next level, right associativity).
Notation "m ;;; k" := (bind m (fun _ => k))
  (at level 61, right associativity).

(** Instrumentation: [logged g] behaves as [g] and appends every
    invocation (argument and outcome) to a log kept beside the state. *)
Definition logged {St A B} (g : A -> M St B)
  : A -> M (St * list (A * result B)) B :=
  fun a sl =>
    let (r, s') := g a (fst sl) in
    (r, (s', snd sl ++ [(a, r)])).

(** [beside_log g] behaves as [g] next to a log it leaves alone. *)
Definition beside_log {St A B L} (g : A -> M St B) : A -> M (St * L) B :=
  fun a sl =>
    let (r, s') := g a (fst sl) in
    (r, (s', snd sl)).

(** ** Token-id tensors

    [input_ids] is a two-dimensional integer tensor (batch x length).
    [ncols] is [shape[1]]; it is kept beside the rows because a tensor
    with no rows still has a length. *)

Record Tensor : Type := mkTensor { ncols : nat; rows : list (list Z) }.

Definition shape0 (t : Tensor) : nat := length (rows t).
Definition shape1 (t : Tensor) : nat := ncols t.

Definition wf_tensor (t : Tensor) : Prop :=
  Forall (fun r => length r = ncols t) (rows t).

(** [t[:, i:j]] for non-negative [i] and [j]. *)
Definition slice_cols (t : Tensor) (i j : nat) : Tensor :=
  {| ncols := (Nat.min j (ncols t) - Nat.min i (ncols t))%nat;
     rows := map (fun r => firstn (j - i) (skipn i r)) (rows t) |}.

(** [t[:, -1]]: a one-dimensional tensor, or [IndexError] when the
    indexed dimension is empty. *)
Definition select_last (t : Tensor) : result (list Z) :=
  match ncols t with
  | O => inl IndexError
  | S n => inr (map (fun r => nth n r 0) (rows t))
  end.

(** [v.unsqueeze(-1)] on a one-dimensional tensor. *)
Definition unsqueeze_last (v : list Z) : Tensor :=
  {| ncols := 1; rows := map (fun x => [x]) v |}.

(** [np.full_like(t, v)]: same shape, every entry [v].  Entries are
    unbounded integers, as Python's [step_ct] is. *)
Definition full_like (t : Tensor) (v : Z) : Tensor :=
  {| ncols := ncols t; rows := map (fun r => map (fun _ => v) r) (rows t) |}.

(** [torch.ones((b, n))]; the entries, the float [1.0], are written as
    the integer [1]. *)
Definition ones (b n : nat) : Tensor :=
  {| ncols := n; rows := repeat (repeat 1 n) b |}.

(** ** The adapter: [WrappedInferenceFunc] *)

Section Adapter.
Context {Logits Cache Hidden Attn : Type}.

Record InferenceFuncOutput : Type := mkInferenceFuncOutput {
  logits : option Logits;
  past_key_values : option Cache;
  hidden_states : option Hidden;
  attentions : option Attn
}.

(** The wrapped function, with the parameter order of its definitions:
    [inference_func(input_ids, past_key_values, output_attentions,
    output_hidden_states)]. *)
Definition InferenceFunc (St : Type) : Type :=
  Tensor -> option Cache -> option bool -> option bool ->
  M St InferenceFuncOutput.

(** Python's truth value of a cache object that is not [None]. *)
Variable cache_bool : Cache -> bool.

Definition py_bool (past : option Cache) : bool :=
  match past with
  | None => false
  | Some c => cache_bool c
  end.

Definition forward {St A Mask : Type} (attention_mask : Mask) : M St A :=
  raise NotImplementedError.

Record PreparedInputs : Type := mkPreparedInputs {
  pi_input_ids : Tensor;
  pi_past_key_values : option Cache
}.

Definition prepare_inputs_for_generation
    (input_ids : Tensor) (past : option Cache) : result PreparedInputs :=
  match (if py_bool past
         then match select_last input_ids with
              | inl e => inl e
              | inr v => inr (unsqueeze_last v)
              end
         else inr input_ids) with
  | inl e => inl e
  | inr input_ids' =>
      inr {| pi_input_ids := input_ids'; pi_past_key_values := past |}
  end.

Section Call.
Context {St : Type}.
Variable inference_func : InferenceFunc St.

(** The [for] loop of [__call__] over the remaining indices.  [ret]
    is [None] while the local variable is unbound. *)
Fixpoint call_loop (input_ids : Tensor)
    (output_attentions output_hidden_states : option bool)
    (idxs : list nat)
    (ret : option InferenceFuncOutput)
    (past_key_values0 : option Cache)
  : M St (option InferenceFuncOutput) :=
  match idxs with
  | [] => mret ret
  | i :: idxs' =>
      r <- inference_func (slice_cols input_ids i (i + 1))
             past_key_values0 output_attentions output_hidden_states ;;
      call_loop input_ids output_attentions output_hidden_states
        idxs' (Some r) (past_key_values r)
  end.

(** [__call__]; its [return_dict] argument is never read. *)
Definition __call__ (input_ids : Tensor)
    (past_key_values0 : option Cache)
    (output_attentions output_hidden_states : option bool)
  : M St InferenceFuncOutput :=
  ret <- call_loop input_ids output_attentions output_hidden_states
           (seq 0 (shape1 input_ids)) None past_key_values0 ;;
  match ret with
  | Some r => mret r
  | None => raise (UnboundLocalError "ret")
  end.
End Call.

(** One logged backend invocation: its arguments and its outcome. *)
Definition Args : Type :=
  (Tensor * option Cache * option bool * option bool)%type.

Definition Invocation : Type := (Args * result InferenceFuncOutput)%type.

Definition inv_input_ids (v : Invocation) : Tensor :=
  fst (fst (fst (fst v))).
Definition inv_past (v : Invocation) : option Cache :=
  snd (fst (fst (fst v))).
Definition inv_result (v : Invocation) : result InferenceFuncOutput :=
  snd v.

Definition traced {St} (f : InferenceFunc St)
  : InferenceFunc (St * list Invocation) :=
  fun x c oa ohs =>
    logged (fun a : Args =>
              f (fst (fst (fst a))) (snd (fst (fst a)))
                (snd (fst a)) (snd a))
           (x, c, oa, ohs).

Definition never_raises {St} (f : InferenceFunc St) : Prop :=
  forall x c oa ohs s, exists o s', f x c oa ohs s = (inr o, s').
End Adapter.

Arguments InferenceFuncOutput : clear implicits.
Arguments InferenceFunc : clear implicits.
Arguments PreparedInputs : clear implicits.

(** ** Backends built by [get_model] *)

(** Python's [l[i]] on a tuple, a list or a [torch.Size], for [i >= 0]. *)
Definition index {A} (l : list A) (i : nat) : result A :=
  match nth_error l i with
  | Some a => inr a
  | None => inl IndexError
  end.

(** *** Plain transformer backend ([GPT2LMHeadModel]) *)
Module Gpt.
Section Backend.
Context {Logits Cache Hidden Attn W : Type}.

Record ModelOutput : Type := mkModelOutput {
  out_logits : Logits;
  out_past_key_values : option Cache
}.

(** The external model, called with [input_ids], [past_key_values],
    [output_attentions], [output_hidden_states]. *)
Variable raw_model :
  Tensor -> option Cache -> option bool -> option bool -> M W ModelOutput.

Definition inference_func
  : InferenceFunc Logits Cache Hidden Attn W :=
  fun input_ids past_key_values output_attentions output_hidden_states =>
    out <- raw_model input_ids past_key_values
             output_attentions output_hidden_states ;;
    mret (mkInferenceFuncOutput (Some (out_logits out))
            (out_past_key_values out) None None).
End Backend.
End Gpt.

(** *** HuggingFace causal-LM backend ([OPTForCausalLM]) *)
Module Opt.
Section Backend.
Context {Logits Payload Hidden Attn W : Type}.

(** A key or value tensor of the cache; only its shape is inspected. *)
Record KVTensor : Type := mkKVTensor {
  kv_shape : list nat;
  kv_payload : Payload
}.

(** A tuple of per-layer tuples of tensors. *)
Definition Cache : Type := list (list KVTensor).

Record ModelArgs : Type := mkModelArgs {
  arg_input_ids : Tensor;
  arg_attention_mask : option Tensor;
  arg_past_key_values : option Cache;
  arg_output_attentions : option bool;
  arg_output_hidden_states : option bool
}.

Record ModelOutput : Type := mkModelOutput {
  out_logits : Logits;
  out_past_key_values : option Cache
}.

Variable raw_model : ModelArgs -> M W ModelOutput.

(** [past_key_values[0][0].shape[2]] *)
Definition past_length_of (past_key_values : Cache) : result nat :=
  match index past_key_values 0 with
  | inl e => inl e
  | inr layer =>
      match index layer 0 with
      | inl e => inl e
      | inr t => index (kv_shape t) 2
      end
  end.

Definition inference_func
  : InferenceFunc Logits Cache Hidden Attn W :=
  fun input_ids past_key_values output_attentions output_hidden_states =>
    attention_mask <-
      match past_key_values with
      | None => mret None
      | Some c =>
          past_length <- lift_result (past_length_of c) ;;
          mret (Some (ones (shape0 input_ids) (past_length + 1)))
      end ;;
    out <- raw_model
             {| arg_input_ids := input_ids;
                arg_attention_mask := attention_mask;
                arg_past_key_values := past_key_values;
                arg_output_attentions := output_attentions;
                arg_output_hidden_states := output_hidden_states |} ;;
    mret (mkInferenceFuncOutput (Some (out_logits out))
            (out_past_key_values out) None None).
End Backend.
End Opt.

(** *** Distributed-executable backend *)
Module Alpa.
Section Backend.
Context {Params Logits Cache Hidden Attn W : Type}.

(** The dictionary handed to the executable. *)
Record ExecInput : Type := mkExecInput {
  in_input_ids : Tensor;
  in_position_ids : Tensor;
  in_cache : Cache
}.

Record ExecOutput : Type := mkExecOutput {
  out_logits : Logits;
  attention_cache : option Cache;
  out_hidden_states : option Hidden;
  out_attentions : option Attn
}.

(** [config.pad], the loaded parameters, the initial cache and the
    compiled executable come from [opt_model]; they are parameters. *)
Variable pad : Z.
Variable params : Params.
Variable init_cache : Cache.
Variable executable : Params -> ExecInput -> M W ExecOutput.

(** The closure's [nonlocal step_ct] beside the runtime's own state. *)
Record State : Type := mkState { step_ct : Z; runtime : W }.

Definition initial_state (w : W) : State :=
  {| step_ct := 0; runtime := w |}.

Definition get_step_ct : M State Z := fun s => (inr (step_ct s), s).

Definition set_step_ct (n : Z) : M State unit :=
  fun s => (inr tt, {| step_ct := n; runtime := runtime s |}).

Definition in_runtime {A} (m : M W A) : M State A :=
  fun s =>
    let (r, w) := m (runtime s) in
    (r, {| step_ct := step_ct s; runtime := w |}).

(** [input_ids.cpu().numpy()] and [torch.from_numpy(np.array(...))]
    move a tensor between representations and keep its entries. *)
Definition inference_func
  : InferenceFunc Logits Cache Hidden Attn State :=
  fun input_ids past_key_values output_attentions output_hidden_states =>
    past_key_values1 <-
      match past_key_values with
      | None => set_step_ct 0 ;;; mret init_cache
      | Some c => mret c
      end ;;
    let input_ids_step := input_ids in
    ct <- get_step_ct ;;
    let position_ids_step := full_like input_ids_step (ct + pad + 1) in
    output <- in_runtime
                (executable params
                   {| in_input_ids := input_ids_step;
                      in_position_ids := position_ids_step;
                      in_cache := past_key_values1 |}) ;;
    let logits_step := out_logits output in
    ct' <- get_step_ct ;;
    set_step_ct (ct' + 1) ;;;
    mret (mkInferenceFuncOutput (Some logits_step)
            (attention_cache output)
            (out_hidden_states output)
            (out_attentions output)).

(** The constant added to the step counter to obtain a position id. *)
Definition pad_offset : Z := pad + 1.
End Backend.
End Alpa.

(** ** Sequences of backend invocations *)

Section Histories.
Context {Logits Cache Hidden Attn St : Type}.

(** The state left by a caller that invokes the backend on each entry
    of [hist] in turn, oldest first. *)
Fixpoint invoke_all (f : InferenceFunc Logits Cache Hidden Attn St)
    (hist : list (@Args Cache)) (s : St) : St :=
  match hist with
  | [] => s
  | a :: hist' =>
      invoke_all f hist'
        (snd (f (fst (fst (fst a))) (snd (fst (fst a)))
                (snd (fst a)) (snd a) s))
  end.
End Histories.

(** The number of invocations made since the cache was last
    re-initialised, the re-initialising invocation included; the list is
    read newest first.  Before any re-initialisation every invocation
    since construction counts. *)
Fixpoint invocations_since_init {Cache} (newest_first : list (@Args Cache))
  : Z :=
  match newest_first with
  | [] => 0
  | a :: older =>
      match snd (fst (fst a)) with
      | None => 1
      | Some _ => 1 + invocations_since_init older
      end
  end.

(** The step index [k] of the newest invocation of a history. *)
Definition step_index {Cache} (hist : list (@Args Cache)) : Z :=
  invocations_since_init (rev hist) - 1.

(** ** The weight-decay mask of the training benchmark *)
Module Train.

(** A parameter leaf: an array (or its abstract shape), of which the
    mask reads [ndim] only. *)
Record Array (D : Type) : Type := mkArray { shape : list nat; data : D }.
Arguments mkArray {D}.
Arguments shape {D}.
Arguments data {D}.

Definition ndim {D} (x : Array D) : nat := length (shape x).

(** JAX pytrees: leaves, [None], dictionaries and sequences. *)
#[warnings="-register-all"]
Inductive pytree (A : Type) : Type :=
| Leaf (a : A)
| PNone
| PDict (items : list (string * pytree A))
| PSeq (items : list (pytree A)).
Arguments Leaf {A}.
Arguments PNone {A}.
Arguments PDict {A}.
Arguments PSeq {A}.

(** [jax.tree_map(f, tree)] *)
Fixpoint tree_map {A B} (f : A -> B) (t : pytree A) : pytree B :=
  match t with
  | Leaf a => Leaf (f a)
  | PNone => PNone
  | PDict items =>
      PDict (map (fun kv => (fst kv, tree_map f (snd kv))) items)
  | PSeq items => PSeq (map (tree_map f) items)
  end.

(** [weight_decay_mask] as defined inside [create_train_state]. *)
Definition weight_decay_mask {D} (pytree0 : pytree (Array D))
  : pytree bool :=
  tree_map (fun x => (1 <? ndim x)%nat) pytree0.

(** [weight_decay_mask] as defined inside [create_train_state_aval]. *)
Definition weight_decay_mask_aval {D} (pytree0 : pytree (Array D))
  : pytree bool :=
  tree_map (fun x => (1 <? ndim x)%nat) pytree0.

(** Addressing a leaf: a dictionary key or a sequence position per
    level. *)
Inductive key : Type :=
| DictKey (name : string)
| SeqKey (pos : nat).

Fixpoint lookup {A} (name : string) (items : list (string * A))
  : option A :=
  match items with
  | [] => None
  | (k, v) :: items' =>
      if String.eqb name k then Some v else lookup name items'
  end.

Definition child {A} (k : key) (t : pytree A) : option (pytree A) :=
  match k, t with
  | DictKey name, PDict items => lookup name items
  | SeqKey pos, PSeq items => nth_error items pos
  | _, _ => None
  end.

Fixpoint leaf_at {A} (path : list key) (t : pytree A) : option A :=
  match path with
  | [] => match t with Leaf a => Some a | _ => None end
  | k :: path' =>
      match child k t with
      | Some t' => leaf_at path' t'
      | None => None
      end
  end.
End Train.

(** ** The invocations made by one adapter call *)

Section LoopInvocations.
Context {Logits Cache Hidden Attn St : Type}.
Variable f : InferenceFunc Logits Cache Hidden Attn St.

(** The backend invocations of the [for] loop, in order; the loop is
    left at the first invocation that raises. *)
Fixpoint loop_invocations (input_ids : Tensor)
    (output_attentions output_hidden_states : option bool)
    (idxs : list nat) (past_key_values0 : option Cache) (s : St)
  : list (@Invocation Logits Cache Hidden Attn) :=
  match idxs with
  | [] => []
  | i :: idxs' =>
      let x := slice_cols input_ids i (i + 1) in
      let (r, s') :=
        f x past_key_values0 output_attentions output_hidden_states s in
      ((x, past_key_values0, output_attentions, output_hidden_states), r)
      :: match r with
         | inl _ => []
         | inr o =>
             loop_invocations input_ids output_attentions
               output_hidden_states idxs' (past_key_values o) s'
         end
  end.
End LoopInvocations.

(** ** Python string operations used by [get_model] *)

(** [s.startswith(sub)] *)
Fixpoint startswith (sub s : string) : bool :=
  match sub, s with
  | EmptyString, _ => true
  | String a sub', String b s' => Ascii.eqb a b && startswith sub' s'
  | String _ _, EmptyString => false
  end.

(** [sub in s] *)
Fixpoint contains (sub s : string) : bool :=
  startswith sub s
  || match s with
     | EmptyString => false
     | String _ s' => contains sub s'
     end.

(** [s.split(sep)] for a one-character separator; the list is never
    empty. *)
Fixpoint split (sep : Ascii.ascii) (s : string) : list string :=
  match s with
  | EmptyString => [EmptyString]
  | String c s' =>
      if Ascii.eqb c sep then EmptyString :: split sep s'
      else match split sep s' with
           | [] => [String c EmptyString]
           | piece :: pieces => String c piece :: pieces
           end
  end.

(** [sep.join(pieces)] *)
Fixpoint join (sep : Ascii.ascii) (pieces : list string) : string :=
  match pieces with
  | [] => EmptyString
  | [piece] => piece
  | piece :: pieces' => (piece ++ String sep (join sep pieces'))%string
  end.

(** ** Construction of the model: [get_model] *)
Module GetModel.

Inductive dtype : Type := float16 | float32.

(** The calls [get_model] makes into the libraries it builds on, with
    the arguments that depend on its own inputs. *)
Inductive external_call : Type :=
| GPT2LMHeadModel_from_pretrained (model_name : string)
| OPTForCausalLM_from_pretrained (model_name : string) (torch_dtype : dtype)
| raw_model_to (device : string)
| print_config
| alpa_init
| get_global_cluster_num_hosts
| get_config (name : string) (num_pp_stages : Z)
| get_pipeshard_executable
    (support_output_attentions support_output_hidden_states : bool)
| load_params_dis_array (path : string) (dummy : bool)
| init_cache_dis_array (batch_size : Z) (dummy : bool)
| executable_sync.

(** Which [inference_func] closure is wrapped. *)
Inductive backend : Type := PlainBackend | CausalLMBackend | AlpaBackend.

(** Where [inference_func_config] comes from. *)
Inductive config_source : Type :=
| RawModelConfig
| FieldsCopiedFromRawModel
| DefaultInferenceFuncConfig.

Definition external (c : external_call) : M (list external_call) unit :=
  fun made => (inr tt, made ++ [c]).

Section GetModel.
(** [str.upper]. *)
Variable upper : string -> string.

(** [get_model]: the state is the list of library calls made so far;
    the libraries' calls are taken to return, [num_hosts] being what the
    cluster reports.  The result names the closure and the configuration
    handed to [WrappedInferenceFunc]. *)
Definition get_model (model_name device : string) (dummy : bool)
    (support_output_attentions support_output_hidden_states : bool)
    (num_hosts : Z)
  : M (list external_call) (backend * config_source) :=
  if contains "gpt" model_name then
    external (GPT2LMHeadModel_from_pretrained model_name) ;;;
    external (raw_model_to device) ;;;
    mret (PlainBackend, RawModelConfig)
  else if contains "facebook/opt" model_name then
    external (OPTForCausalLM_from_pretrained model_name
                (if contains "cuda" device then float16 else float32)) ;;;
    external (raw_model_to device) ;;;
    external print_config ;;;
    mret (CausalLMBackend, FieldsCopiedFromRawModel)
  else if contains "alpa/opt" model_name then
    external alpa_init ;;;
    external get_global_cluster_num_hosts ;;;
    let num_pp_stages := Z.max 2 num_hosts in
    piece <- lift_result (index (split "-"%char model_name) 1) ;;
    let name := upper piece in
    external (get_config name num_pp_stages) ;;;
    let path := ("/home/ubuntu/opt_weights/" ++ name ++ "_np")%string in
    external (get_pipeshard_executable support_output_attentions
                support_output_hidden_states) ;;;
    external (load_params_dis_array path dummy) ;;;
    external (init_cache_dis_array 1 dummy) ;;;
    external executable_sync ;;;
    mret (AlpaBackend, DefaultInferenceFuncConfig)
  else
    raise (UnboundLocalError "inference_func").
End GetModel.
End GetModel.

(** ** The timed loop of [benchmark_opt_internal] *)
Module Bench.
Section Loop.
Context {W TrainState Batch Key Time Latency : Type}.

(** [time.time()], the step function returned by [get_train_step] and
    the subtraction of two clock readings. *)
Variable time_time : unit -> M W Time.
Variable train_step : TrainState * Batch * Key -> M W TrainState.
Variable minus : Time -> Time -> Latency.

(** The body of [for i in range(niter)], over the remaining values of
    [i]; [print] is left out. *)
Fixpoint timed_loop (idxs : list nat) (batch : Batch) (rngkey : Key)
    (state : TrainState) (latencies : list Latency)
  : M W (TrainState * list Latency) :=
  match idxs with
  | [] => mret (state, latencies)
  | _ :: idxs' =>
      tic <- time_time tt ;;
      state' <- train_step (state, batch, rngkey) ;;
      tok <- time_time tt ;;
      timed_loop idxs' batch rngkey state' (latencies ++ [minus tok tic])
  end.

(** [latencies = []] followed by the loop over [range(niter)]. *)
Definition timed_iterations (niter : Z) (batch : Batch) (rngkey : Key)
    (state : TrainState)
  : M W (TrainState * list Latency) :=
  timed_loop (seq 0 (Z.to_nat niter)) batch rngkey state [].
End Loop.
End Bench.

(** ** Fixtures used to exercise the statements *)
Module Demo.

(** A backend that never raises: it echoes its input as logits, appends
    the rows it saw to the cache and counts its invocations. *)
Definition backend : InferenceFunc Tensor (list (list Z)) unit unit nat :=
  fun x c _ _ n =>
    (inr (mkInferenceFuncOutput (Some x)
            (Some (match c with None => [] | Some l => l end ++ rows x))
            None None),
     S n).

Definition prompt : Tensor := {| ncols := 3; rows := [[11; 12; 13]] |}.

Definition empty_prompt : Tensor := {| ncols := 0; rows := [[]] |}.

Definition cache_bool (c : list (list Z)) : bool :=
  match c with [] => false | _ => true end.

(** An executable for the distributed backend: logits are the position
    ids it was given, the cache grows by the rows it saw. *)
Definition executable (p : unit)
    (i : @Alpa.ExecInput (list (list Z)))
  : M unit (@Alpa.ExecOutput Tensor (list (list Z)) unit unit) :=
  fun w =>
    (inr (Alpa.mkExecOutput (Alpa.in_position_ids i)
            (Some (Alpa.in_cache i ++ rows (Alpa.in_input_ids i)))
            None None),
     w).

(** A causal-LM model that returns its [input_ids] as logits and passes
    the cache through. *)
Definition raw_model (a : @Opt.ModelArgs unit)
  : M unit (@Opt.ModelOutput Tensor unit) :=
  fun w =>
    (inr (Opt.mkModelOutput (Opt.arg_input_ids a)
            (Opt.arg_past_key_values a)),
     w).

Definition kv_cache : @Opt.Cache unit :=
  [[Opt.mkKVTensor [1; 12; 4; 64]%nat tt;
    Opt.mkKVTensor [1; 12; 4; 64]%nat tt]].

Definition params : Train.pytree (Train.Array unit) :=
  Train.PDict
    [("dense"%string,
      Train.PDict [("kernel"%string, Train.Leaf (Train.mkArray [4; 8]%nat tt));
                   ("bias"%string, Train.Leaf (Train.mkArray [8]%nat tt))]);
     ("layer_norm"%string,
      Train.PDict [("scale"%string, Train.Leaf (Train.mkArray [8]%nat tt))])].

(** ASCII upper-casing, standing for [str.upper] on ASCII names. *)
Definition upper_char (c : Ascii.ascii) : Ascii.ascii :=
  let n := Ascii.nat_of_ascii c in
  if ((97 <=? n) && (n <=? 122))%nat then Ascii.ascii_of_nat (n - 32) else c.

Fixpoint upper (s : string) : string :=
  match s with
  | EmptyString => EmptyString
  | String c s' => String (upper_char c) (upper s')
  end.

(** A backend that raises on the token 13 and otherwise behaves as
    [backend]. *)
Definition failing_backend
  : InferenceFunc Tensor (list (list Z)) unit unit nat :=
  fun x c oa ohs n =>
    match rows x with
    | [13 :: _] => (inl (ExternalError "out of memory"), S n)
    | _ => backend x c oa ohs n
    end.

(** A clock that advances by one tick per reading and a training step
    that counts its invocations. *)
Definition clock (_ : unit) : M Z Z := fun now => (inr now, now + 1).

Definition train_step (a : nat * unit * unit) : M Z nat :=
  fun now => (inr (S (fst (fst a))), now + 10).
End Demo.

(** * Properties *)

(** ** The effect monad and the instrumentation *)

Lemma traced_eq {Logits Cache Hidden Attn St}
    (f : InferenceFunc Logits Cache Hidden Attn St) x c oa ohs s log :
  traced f x c oa ohs (s, log)
  = (fst (f x c oa ohs s),
     (snd (f x c oa ohs s), log ++ [((x, c, oa, ohs), fst (f x c oa ohs s))])).
Proof.
  unfold traced, logged; simpl.
  destruct (f x c oa ohs s); reflexivity.
Qed.

Lemma call_loop_traced {Logits Cache Hidden Attn St}
    (f : InferenceFunc Logits Cache Hidden Attn St) t oa ohs :
  forall idxs ret pkv s log,
    call_loop (traced f) t oa ohs idxs ret pkv (s, log)
    = (fst (call_loop f t oa ohs idxs ret pkv s),
       (snd (call_loop f t oa ohs idxs ret pkv s),
        log ++ loop_invocations f t oa ohs idxs pkv s)).
Proof.
  induction idxs as [|i idxs IH]; intros ret pkv s log; simpl.
  - unfold mret; simpl. now rewrite app_nil_r.
  - unfold bind. rewrite traced_eq.
    destruct (f (slice_cols t i (i + 1)) pkv oa ohs s) as [[e|o] s']; simpl.
    + reflexivity.
    + rewrite IH, <- app_assoc. reflexivity.
Qed.

Lemma call_traced {Logits Cache Hidden Attn St}
    (f : InferenceFunc Logits Cache Hidden Attn St) t pkv oa ohs s log :
  __call__ (traced f) t pkv oa ohs (s, log)
  = (fst (__call__ f t pkv oa ohs s),
     (snd (__call__ f t pkv oa ohs s),
      log ++ loop_invocations f t oa ohs (seq 0 (shape1 t)) pkv s)).
Proof.
  unfold __call__, bind. rewrite call_loop_traced.
  destruct (call_loop f t oa ohs (seq 0 (shape1 t)) None pkv s)
    as [[e|[r|]] s']; reflexivity.
Qed.

(** ** The loop of [__call__] *)

Section LoopFacts.
Context {Logits Cache Hidden Attn St : Type}.
Variable f : InferenceFunc Logits Cache Hidden Attn St.
Variables (t : Tensor) (oa ohs : option bool).

Lemma loop_invocations_input :
  forall idxs pkv s k inv,
    nth_error (loop_invocations f t oa ohs idxs pkv s) k = Some inv ->
    exists i, nth_error idxs k = Some i
              /\ inv_input_ids inv = slice_cols t i (i + 1).
Proof.
  induction idxs as [|i idxs IH]; intros pkv s k inv; simpl.
  - destruct k; discriminate.
  - destruct (f (slice_cols t i (i + 1)) pkv oa ohs s) as [r s'].
    destruct k as [|k]; simpl.
    + intros [= <-]. exists i. split; reflexivity.
    + destruct r as [e|o]; [destruct k; discriminate|]. apply IH.
Qed.

Lemma loop_invocations_head :
  forall idxs pkv s inv,
    nth_error (loop_invocations f t oa ohs idxs pkv s) 0 = Some inv ->
    inv_past inv = pkv.
Proof.
  intros [|i idxs] pkv s inv; simpl; [discriminate|].
  destruct (f (slice_cols t i (i + 1)) pkv oa ohs s) as [r s'].
  intros [= <-]. reflexivity.
Qed.

Lemma loop_invocations_chain :
  forall idxs pkv s k a b,
    nth_error (loop_invocations f t oa ohs idxs pkv s) k = Some a ->
    nth_error (loop_invocations f t oa ohs idxs pkv s) (S k) = Some b ->
    exists o, inv_result a = inr o /\ inv_past b = past_key_values o.
Proof.
  induction idxs as [|i idxs IH]; intros pkv s k a b; simpl.
  - destruct k; discriminate.
  - destruct (f (slice_cols t i (i + 1)) pkv oa ohs s) as [[e|o] s'].
    + destruct k as [|[|k]]; simpl; intros Ha Hb; discriminate.
    + destruct k as [|k]; simpl.
      * intros [= <-] Hb. exists o. split; [reflexivity|].
        now apply loop_invocations_head in Hb.
      * apply IH.
Qed.

End LoopFacts.

Lemma slice_cols_single_shape t i :
  (i < shape1 t)%nat -> shape1 (slice_cols t i (i + 1)) = 1%nat.
Proof. unfold shape1, slice_cols; simpl. lia. Qed.

(** For a well-formed tensor the slice [[:, i:i+1]] holds, row by row,
    the entry at position [i]. *)
Lemma slice_cols_single_rows t i :
  wf_tensor t -> (i < shape1 t)%nat ->
  rows (slice_cols t i (i + 1)) = map (fun r => [nth i r 0]) (rows t).
Proof.
  unfold wf_tensor, shape1, slice_cols; simpl. intros Hwf Hi.
  apply map_ext_in. intros r Hr.
  rewrite Forall_forall in Hwf. specialize (Hwf r Hr).
  replace (i + 1 - i)%nat with 1%nat by lia.
  revert i Hi Hwf. generalize (ncols t). clear.
  induction r as [|z r IH]; intros n i Hi Hlen; simpl in *.
  - lia.
  - destruct i as [|i]; simpl; [reflexivity|].
    apply (IH (length r) i); lia.
Qed.

Section LoopOutcome.
Context {Logits Cache Hidden Attn St : Type}.
Variable f : InferenceFunc Logits Cache Hidden Attn St.
Variables (t : Tensor) (oa ohs : option bool).

Lemma loop_invocations_length_le :
  forall idxs pkv s,
    (length (loop_invocations f t oa ohs idxs pkv s) <= length idxs)%nat.
Proof.
  induction idxs as [|i idxs IH]; intros pkv s; simpl; [lia|].
  destruct (f (slice_cols t i (i + 1)) pkv oa ohs s) as [[e|o] s']; simpl.
  - lia.
  - specialize (IH (past_key_values o) s'). lia.
Qed.

Lemma loop_invocations_nonempty :
  forall idxs pkv s,
    idxs <> [] -> loop_invocations f t oa ohs idxs pkv s <> [].
Proof.
  intros [|i idxs] pkv s H; [congruence|]. simpl.
  destruct (f (slice_cols t i (i + 1)) pkv oa ohs s). discriminate.
Qed.

(** The loop ends with the outcome of the last invocation it made. *)
Lemma call_loop_outcome :
  forall idxs ret pkv s,
    idxs <> [] ->
    exists inv,
      nth_error (loop_invocations f t oa ohs idxs pkv s)
        (length (loop_invocations f t oa ohs idxs pkv s) - 1) = Some inv
      /\ fst (call_loop f t oa ohs idxs ret pkv s)
         = match inv_result inv with
           | inl e => inl e
           | inr o => inr (Some o)
           end.
Proof.
  induction idxs as [|i idxs IH]; intros ret pkv s Hne; [congruence|].
  simpl. unfold bind.
  destruct (f (slice_cols t i (i + 1)) pkv oa ohs s) as [[e|o] s'] eqn:E.
  - eexists. split; reflexivity.
  - destruct idxs as [|j idxs].
    + eexists. split; reflexivity.
    + destruct (IH (Some o) (past_key_values o) s') as (inv & H1 & H2);
        [discriminate|].
      exists inv. split; [|exact H2].
      pose proof (loop_invocations_nonempty (j :: idxs)
                    (past_key_values o) s') as Hnil.
      destruct (loop_invocations f t oa ohs (j :: idxs)
                  (past_key_values o) s') as [|v l] eqn:El;
        [exfalso; apply Hnil; [discriminate | reflexivity]|].
      simpl in H1 |- *. rewrite Nat.sub_0_r in H1. exact H1.
Qed.
End LoopOutcome.

Section LoopReturns.
Context {Logits Cache Hidden Attn St : Type}.
Variable f : InferenceFunc Logits Cache Hidden Attn St.
Variables (t : Tensor) (oa ohs : option bool).

(** A loop that returns made one invocation per index. *)
Lemma loop_invocations_complete :
  forall idxs ret pkv s r s',
    call_loop f t oa ohs idxs ret pkv s = (inr r, s') ->
    length (loop_invocations f t oa ohs idxs pkv s) = length idxs.
Proof.
  induction idxs as [|i idxs IH]; intros ret pkv s r s'; [reflexivity|].
  simpl. unfold bind.
  destruct (f (slice_cols t i (i + 1)) pkv oa ohs s) as [[e|o] s1];
    [discriminate|].
  intros H. simpl. f_equal. exact (IH _ _ _ _ _ H).
Qed.

(** A call that returns ran its loop to the end. *)
Lemma call_returns_loop pkv s o :
  fst (__call__ f t pkv oa ohs s) = inr o ->
  exists s',
    call_loop f t oa ohs (seq 0 (shape1 t)) None pkv s = (inr (Some o), s').
Proof.
  unfold __call__, bind.
  destruct (call_loop f t oa ohs (seq 0 (shape1 t)) None pkv s)
    as [[e|[r|]] s']; simpl; try discriminate.
  intros [= <-]. now exists s'.
Qed.

Lemma call_returns_nonempty pkv s o :
  fst (__call__ f t pkv oa ohs s) = inr o -> (1 <= shape1 t)%nat.
Proof.
  unfold __call__, bind. destruct (shape1 t); [discriminate | lia].
Qed.
End LoopReturns.

(** The slice [[:, i:i+1]] read on the rows, without any assumption on
    the tensor. *)
Lemma slice_cols_rows t i :
  rows (slice_cols t i (i + 1)) = map (fun r => firstn 1 (skipn i r)) (rows t).
Proof.
  unfold slice_cols; simpl. apply map_ext. intros r.
  now replace (i + 1 - i)%nat with 1%nat by lia.
Qed.

Lemma seq_nth_error n i j :
  nth_error (seq 0 n) i = Some j -> j = i /\ (i < n)%nat.
Proof.
  intros H. pose proof (nth_error_Some (seq 0 n) i) as Hlt.
  rewrite H, length_seq in Hlt.
  assert (i < n)%nat as Hi by (apply Hlt; discriminate).
  rewrite (nth_error_nth' _ 0%nat) in H by now rewrite length_seq.
  rewrite seq_nth in H by assumption. injection H as <-. now split.
Qed.

(** ** The adapter's call operation *)

(** C1: a call with no cache that returns, on a prompt of length N,
    has invoked the backend exactly N times (and N >= 1).  The i-th
    invocation received the one-column tensor holding, for every row of
    the batch, exactly the token at position i; the first invocation
    received no cache and every later one the cache returned by the
    invocation before it; every invocation returned. *)
Theorem call_invokes_backend_once_per_position
    {Logits Cache Hidden Attn St}
    (f : InferenceFunc Logits Cache Hidden Attn St)
    (t : Tensor) (oa ohs : option bool) (s : St)
    (o : InferenceFuncOutput Logits Cache Hidden Attn) :
  fst (__call__ f t None oa ohs s) = inr o ->
  let log := snd (snd (__call__ (traced f) t None oa ohs (s, []))) in
  length log = shape1 t
  /\ (1 <= shape1 t)%nat
  /\ (forall i inv, nth_error log i = Some inv ->
        inv_input_ids inv = slice_cols t i (i + 1)
        /\ shape0 (inv_input_ids inv) = shape0 t
        /\ shape1 (inv_input_ids inv) = 1%nat
        /\ rows (inv_input_ids inv)
           = map (fun r => firstn 1 (skipn i r)) (rows t)
        /\ (wf_tensor t ->
            rows (inv_input_ids inv) = map (fun r => [nth i r 0]) (rows t)))
  /\ (forall inv, nth_error log 0 = Some inv -> inv_past inv = None)
  /\ (forall i a b,
        nth_error log i = Some a -> nth_error log (S i) = Some b ->
        exists oi, inv_result a = inr oi
                   /\ inv_past b = past_key_values oi)
  /\ (forall i inv, nth_error log i = Some inv ->
        exists oi, inv_result inv = inr oi).
Proof.
  intros Hret log. subst log. rewrite call_traced. simpl.
  destruct (call_returns_loop f t oa ohs None s o Hret) as (s' & Hloop).
  pose proof (loop_invocations_complete f t oa ohs _ _ _ _ _ _ Hloop) as Hlen.
  rewrite length_seq in Hlen.
  set (log := loop_invocations f t oa ohs (seq 0 (shape1 t)) None s) in *.
  split; [exact Hlen|].
  split; [exact (call_returns_nonempty f t oa ohs None s o Hret)|].
  split; [|split; [|split]].
  - intros i inv H.
    apply loop_invocations_input in H as (j & Hj & E).
    apply seq_nth_error in Hj as (-> & Hi).
    rewrite E. split; [reflexivity|]. split; [|split; [|split]].
    + unfold shape0, slice_cols; simpl. apply length_map.
    + now apply slice_cols_single_shape.
    + apply slice_cols_rows.
    + intros Hwf. now apply slice_cols_single_rows.
  - intros inv. apply loop_invocations_head.
  - intros i a b. apply loop_invocations_chain.
  - intros i inv Hi.
    destruct (nth_error log (S i)) as [b|] eqn:Eb.
    + destruct (loop_invocations_chain f t oa ohs _ _ _ _ _ _ Hi Eb)
        as (oi & Ho & _).
      now exists oi.
    + (* the last invocation: its outcome is the loop's *)
      apply nth_error_None in Eb.
      assert (Hlt : (i < length log)%nat)
        by (apply nth_error_Some; rewrite Hi; discriminate).
      pose proof (call_returns_nonempty f t oa ohs None s o Hret) as HN.
      assert (Hseq : seq 0 (shape1 t) <> []).
      { intros Hs. apply (f_equal (@length nat)) in Hs.
        rewrite length_seq in Hs. simpl in Hs. lia. }
      destruct (call_loop_outcome f t oa ohs (seq 0 (shape1 t)) None None s
                  Hseq) as (inv' & H1 & H2).
      fold log in H1.
      replace (length log - 1)%nat with i in H1 by lia.
      rewrite Hi in H1. injection H1 as <-.
      rewrite Hloop in H2. simpl in H2.
      destruct (inv_result inv) as [e|oi]; [discriminate | now exists oi].
Qed.

Lemma call_invokes_backend_once_per_position_witness :
  let log :=
    snd (snd (__call__ (traced Demo.failing_backend)
                {| ncols := 2; rows := [[11; 12]] |}
                None None None (0%nat, []))) in
  length log = 2%nat
  /\ (forall i inv, nth_error log i = Some inv ->
        rows (inv_input_ids inv) = map (fun r => [nth i r 0]) [[11; 12]])
  /\ map (fun inv => rows (inv_input_ids inv)) log = [[[11]]; [[12]]]
  /\ map inv_past log = [None; Some [[11]]].
Proof.
  intros log.
  destruct (call_invokes_backend_once_per_position Demo.failing_backend
              {| ncols := 2; rows := [[11; 12]] |} None None 0%nat
              (mkInferenceFuncOutput (Some {| ncols := 1; rows := [[12]] |})
                 (Some [[11]; [12]]) None None)
              eq_refl)
    as (Hlen & _ & Hin & _).
  split; [exact Hlen|]. split; [|split; reflexivity].
  intros i inv Hi.
  exact (proj2 (proj2 (proj2 (proj2 (Hin i inv Hi))))
           ltac:(repeat constructor)).
Defined.

(** C2: on a non-empty input the outcome of the call is the outcome of
    the last backend invocation it made; when the call returns, that
    invocation is the one for the last position (the one-column tensor
    holding, for every row, the token at position N-1), it is the N-th
    one, and what it returned is returned as it is, logits and cache;
    what the earlier invocations returned is not part of the result. *)
Theorem call_returns_last_output
    {Logits Cache Hidden Attn St}
    (f : InferenceFunc Logits Cache Hidden Attn St)
    (t : Tensor) (pkv : option Cache) (oa ohs : option bool) (s : St) :
  (1 <= shape1 t)%nat ->
  let log := snd (snd (__call__ (traced f) t pkv oa ohs (s, []))) in
  exists inv,
    nth_error log (length log - 1) = Some inv
    /\ fst (__call__ f t pkv oa ohs s) = inv_result inv
    /\ (forall o,
          fst (__call__ f t pkv oa ohs s) = inr o ->
          length log = shape1 t
          /\ inv_result inv = inr o
          /\ inv_input_ids inv = slice_cols t (shape1 t - 1) (shape1 t)
          /\ shape0 (inv_input_ids inv) = shape0 t
          /\ shape1 (inv_input_ids inv) = 1%nat
          /\ rows (inv_input_ids inv)
             = map (fun r => firstn 1 (skipn (shape1 t - 1) r)) (rows t)
          /\ (wf_tensor t ->
              rows (inv_input_ids inv)
              = map (fun r => [nth (shape1 t - 1) r 0]) (rows t))).
Proof.
  intros HN log. subst log. rewrite call_traced. simpl.
  set (log := loop_invocations f t oa ohs (seq 0 (shape1 t)) pkv s).
  assert (Hseq : seq 0 (shape1 t) <> [])
    by (destruct (shape1 t); [lia | discriminate]).
  destruct (call_loop_outcome f t oa ohs (seq 0 (shape1 t)) None pkv s Hseq)
    as (inv & H1 & H2).
  fold log in H1.
  assert (Hcall : fst (__call__ f t pkv oa ohs s) = inv_result inv).
  { unfold __call__, bind.
    destruct (call_loop f t oa ohs (seq 0 (shape1 t)) None pkv s) as [r s'].
    simpl in H2. subst r. destruct (inv_result inv); reflexivity. }
  exists inv. split; [exact H1|]. split; [exact Hcall|].
  intros o Ho.
  destruct (call_returns_loop f t oa ohs pkv s o Ho) as (s' & Hloop).
  pose proof (loop_invocations_complete f t oa ohs _ _ _ _ _ _ Hloop) as Hlen.
  rewrite length_seq in Hlen. fold log in Hlen.
  rewrite Hlen in H1.
  apply loop_invocations_input in H1 as (j & Hj & E).
  apply seq_nth_error in Hj as (-> & Hi).
  assert (Heq : (shape1 t - 1 + 1)%nat = shape1 t) by lia.
  split; [exact Hlen|]. split; [now rewrite <- Hcall|].
  split; [now rewrite E, Heq|]. split; [|split; [|split]].
  - rewrite E. unfold shape0, slice_cols; simpl. apply length_map.
  - rewrite E. now apply slice_cols_single_shape.
  - rewrite E. apply slice_cols_rows.
  - intros Hwf. rewrite E. now apply slice_cols_single_rows.
Qed.

Lemma call_returns_last_output_witness :
  exists inv,
    nth_error (snd (snd (__call__ (traced Demo.failing_backend)
                           {| ncols := 2; rows := [[11; 12]] |}
                           None None None (0%nat, [])))) 1 = Some inv
    /\ rows (inv_input_ids inv) = [[12]]
    /\ fst (__call__ Demo.failing_backend
              {| ncols := 2; rows := [[11; 12]] |} None None None 0%nat)
       = inv_result inv
    /\ inv_result inv
       = inr (mkInferenceFuncOutput (Some {| ncols := 1; rows := [[12]] |})
                (Some [[11]; [12]]) None None).
Proof.
  destruct (call_returns_last_output Demo.failing_backend
              {| ncols := 2; rows := [[11; 12]] |} None None None 0%nat
              ltac:(simpl; lia))
    as (inv & H1 & H2 & H3).
  destruct (H3 (mkInferenceFuncOutput (Some {| ncols := 1; rows := [[12]] |})
                  (Some [[11]; [12]]) None None) eq_refl)
    as (Hlen & Hres & _ & _ & _ & _ & Hrows).
  exists inv. split; [exact H1|]. split; [|split; [exact H2 | exact Hres]].
  exact (Hrows ltac:(repeat constructor)).
Defined.

(** C9: on an input with zero positions the loop body never runs, the
    backend is not invoked, and the call raises on the unbound local
    [ret] instead of returning logits or a cache. *)
Theorem call_on_empty_input_raises
    {Logits Cache Hidden Attn St}
    (f : InferenceFunc Logits Cache Hidden Attn St)
    (t : Tensor) (pkv : option Cache) (oa ohs : option bool) (s : St) :
  shape1 t = 0%nat ->
  __call__ f t pkv oa ohs s = (inl (UnboundLocalError "ret"), s)
  /\ snd (snd (__call__ (traced f) t pkv oa ohs (s, []))) = [].
Proof.
  intros H0. split.
  - unfold __call__, bind. rewrite H0. reflexivity.
  - rewrite call_traced. simpl. rewrite H0. reflexivity.
Qed.

Lemma call_on_empty_input_raises_witness :
  __call__ Demo.backend Demo.empty_prompt None None None 0%nat
  = (inl (UnboundLocalError "ret"), 0%nat).
Proof.
  exact (proj1 (call_on_empty_input_raises Demo.backend Demo.empty_prompt
                  None None None 0%nat eq_refl)).
Defined.

(** C7: the forward operation raises [NotImplementedError] on every
    input and in every state; it never returns a value. *)
Theorem forward_always_raises {St A Mask : Type}
    (attention_mask : Mask) (s : St) :
  @forward St A Mask attention_mask s = (inl NotImplementedError, s)
  /\ forall (a : A) (s' : St),
       @forward St A Mask attention_mask s <> (inr a, s').
Proof.
  split; [reflexivity|]. intros a s'. unfold forward, raise. discriminate.
Qed.

(** ** Preparing the inputs of a generation step *)

Lemma unsqueeze_select_last t n :
  wf_tensor t -> ncols t = S n ->
  unsqueeze_last (map (fun r => nth n r 0) (rows t)) = slice_cols t n (n + 1).
Proof.
  intros Hwf Hn.
  pose proof (slice_cols_single_rows t n Hwf) as Hrows.
  unfold shape1 in Hrows. rewrite Hn in Hrows.
  specialize (Hrows (Nat.lt_succ_diag_r n)).
  unfold unsqueeze_last. rewrite map_map.
  unfold slice_cols in *. simpl in Hrows. rewrite Hrows, Hn.
  f_equal. lia.
Qed.

(** C10, as the code has it: with a truthy cache and at least one
    position the input is cut down to its last position; with no cache
    the input is returned as it is; whenever a result is returned its
    cache field is the cache that was passed in. *)
Theorem prepare_inputs_keeps_last_token
    {Cache} (cache_bool : Cache -> bool)
    (input_ids : Tensor) (past : option Cache) :
  (py_bool cache_bool past = true ->
   wf_tensor input_ids -> (1 <= shape1 input_ids)%nat ->
   prepare_inputs_for_generation cache_bool input_ids past
   = inr {| pi_input_ids :=
              slice_cols input_ids (shape1 input_ids - 1) (shape1 input_ids);
            pi_past_key_values := past |})
  /\ (past = None ->
      prepare_inputs_for_generation cache_bool input_ids past
      = inr {| pi_input_ids := input_ids; pi_past_key_values := None |})
  /\ (forall r,
        prepare_inputs_for_generation cache_bool input_ids past = inr r ->
        pi_past_key_values r = past).
Proof.
  unfold prepare_inputs_for_generation, shape1. repeat split.
  - intros Hb Hwf Hn. rewrite Hb. unfold select_last.
    destruct (ncols input_ids) as [|n] eqn:E; [lia|].
    rewrite (unsqueeze_select_last input_ids n Hwf E).
    simpl. rewrite Nat.sub_0_r. do 2 f_equal. f_equal. lia.
  - intros ->. reflexivity.
  - intros r. destruct (py_bool cache_bool past).
    + destruct (select_last input_ids); [discriminate|].
      intros [= <-]. reflexivity.
    + intros [= <-]. reflexivity.
Qed.

Lemma prepare_inputs_keeps_last_token_witness :
  prepare_inputs_for_generation Demo.cache_bool Demo.prompt (Some [[11; 12]])
  = inr {| pi_input_ids := {| ncols := 1; rows := [[13]] |};
           pi_past_key_values := Some [[11; 12]] |}.
Proof.
  apply (proj1 (prepare_inputs_keeps_last_token Demo.cache_bool Demo.prompt
                  (Some [[11; 12]]))).
  - reflexivity.
  - repeat constructor.
  - simpl; lia.
Defined.

(** C10 fails as stated: with a truthy cache and an input that has no
    position, indexing the last position raises and nothing is
    returned. *)
Lemma prepare_inputs_empty_input_raises :
  py_bool Demo.cache_bool (Some [[11]]) = true
  /\ prepare_inputs_for_generation Demo.cache_bool Demo.empty_prompt
       (Some [[11]]) = inl IndexError
  /\ ~ exists r,
         prepare_inputs_for_generation Demo.cache_bool Demo.empty_prompt
           (Some [[11]]) = inr r.
Proof.
  repeat split. intros [r H]. discriminate H.
Qed.

Lemma full_like_entries t v :
  shape0 (full_like t v) = shape0 t
  /\ shape1 (full_like t v) = shape1 t
  /\ Forall (Forall (fun z => z = v)) (rows (full_like t v)).
Proof.
  unfold shape0, shape1, full_like; simpl. repeat split.
  - apply length_map.
  - apply Forall_forall. intros r Hr. apply in_map_iff in Hr as (r0 & <- & _).
    apply Forall_forall. intros z Hz. now apply in_map_iff in Hz as (_ & <- & _).
Qed.

(** ** The causal-LM backend's attention mask *)

Lemma ones_shape b n :
  shape0 (ones b n) = b /\ shape1 (ones b n) = n
  /\ wf_tensor (ones b n)
  /\ Forall (Forall (fun z => z = 1)) (rows (ones b n)).
Proof.
  unfold shape0, shape1, wf_tensor, ones; simpl. repeat split.
  - apply repeat_length.
  - apply Forall_forall. intros r Hr. apply repeat_spec in Hr. subst r.
    apply repeat_length.
  - apply Forall_forall. intros r Hr. apply repeat_spec in Hr. subst r.
    apply Forall_forall. intros z Hz. now apply repeat_spec in Hz.
Qed.

(** C6, as the code has it: when a cache is given and its first tensor
    has a third dimension of size n, the model is called once, with an
    all-ones mask of shape batch x (n + 1); when no cache is given the
    model is called once with no mask at all. *)
Theorem opt_attention_mask_from_cache_length
    {Logits Payload Hidden Attn W}
    (raw_model : @Opt.ModelArgs Payload -> M W (@Opt.ModelOutput Logits Payload))
    (input_ids : Tensor) (past_key_values0 : option (@Opt.Cache Payload))
    (oa ohs : option bool) (w : W) :
  let log :=
    snd (snd (Opt.inference_func (Hidden := Hidden) (Attn := Attn)
                (logged raw_model) input_ids past_key_values0 oa ohs
                (w, []))) in
  (forall c n,
      past_key_values0 = Some c -> Opt.past_length_of c = inr n ->
      let mask := ones (shape0 input_ids) (n + 1) in
      (exists r,
          log = [(Opt.mkModelArgs input_ids (Some mask) (Some c) oa ohs, r)])
      /\ shape0 mask = shape0 input_ids
      /\ shape1 mask = (n + 1)%nat
      /\ Forall (Forall (fun z => z = 1)) (rows mask))
  /\ (past_key_values0 = None ->
      exists r, log = [(Opt.mkModelArgs input_ids None None oa ohs, r)]).
Proof.
  intros log. split.
  - intros c n -> Hn mask.
    destruct (ones_shape (shape0 input_ids) (n + 1)) as (H0 & H1 & _ & H3).
    repeat split; auto.
    subst log. unfold Opt.inference_func, bind, lift_result, mret, logged.
    rewrite Hn. simpl.
    destruct (raw_model _ w) as [[e|o] w']; simpl; eexists; reflexivity.
  - intros ->. subst log.
    unfold Opt.inference_func, bind, mret, logged. simpl.
    destruct (raw_model _ w) as [[e|o] w']; simpl; eexists; reflexivity.
Qed.

Lemma opt_attention_mask_from_cache_length_witness :
  exists r,
    snd (snd (Opt.inference_func (Hidden := unit) (Attn := unit)
                (logged Demo.raw_model)
                {| ncols := 1; rows := [[11]] |} (Some Demo.kv_cache)
                None None (tt, [])))
    = [(Opt.mkModelArgs {| ncols := 1; rows := [[11]] |}
          (Some {| ncols := 5; rows := [[1; 1; 1; 1; 1]] |})
          (Some Demo.kv_cache) None None, r)].
Proof.
  exact (proj1 (proj1 (opt_attention_mask_from_cache_length
                         (Hidden := unit) (Attn := unit) Demo.raw_model
                         {| ncols := 1; rows := [[11]] |}
                         (Some Demo.kv_cache) None None tt)
                  Demo.kv_cache 4%nat eq_refl eq_refl)).
Defined.

(** C6 fails as stated: at a step with no cache the model receives no
    mask, hence no all-ones tensor of any width. *)
Lemma opt_first_step_passes_no_mask :
  map (fun e => Opt.arg_attention_mask (fst e))
      (snd (snd (Opt.inference_func (Hidden := unit) (Attn := unit)
                   (logged Demo.raw_model)
                   {| ncols := 1; rows := [[11]] |} None None None
                   (tt, []))))
  = [None]
  /\ ~ exists n,
         map (fun e => Opt.arg_attention_mask (fst e))
             (snd (snd (Opt.inference_func (Hidden := unit) (Attn := unit)
                          (logged Demo.raw_model)
                          {| ncols := 1; rows := [[11]] |} None None None
                          (tt, []))))
         = [Some (ones 1 (n + 1))].
Proof.
  split; [reflexivity|]. intros [n H]. discriminate H.
Qed.

(** ** The distributed backend's step counter *)

Section AlpaFacts.
Context {Params Logits Cache Hidden Attn W : Type}.
Variables (pad : Z) (params : Params) (init_cache : Cache).
Variable executable :
  Params -> @Alpa.ExecInput Cache
  -> M W (@Alpa.ExecOutput Logits Cache Hidden Attn).

Let f := Alpa.inference_func pad params init_cache executable.

(** One backend invocation, with the monad unfolded. *)
Lemma alpa_step x c oa ohs st :
  f x c oa ohs st
  = let ct := match c with None => 0 | Some _ => Alpa.step_ct st end in
    let cache := match c with None => init_cache | Some c' => c' end in
    match executable params
            (Alpa.mkExecInput x (full_like x (ct + pad + 1)) cache)
            (Alpa.runtime st) with
    | (inl e, w) => (inl e, Alpa.mkState ct w)
    | (inr o, w) =>
        (inr (mkInferenceFuncOutput (Some (Alpa.out_logits o))
                (Alpa.attention_cache o) (Alpa.out_hidden_states o)
                (Alpa.out_attentions o)),
         Alpa.mkState (ct + 1) w)
    end.
Proof.
  unfold f, Alpa.inference_func, bind, mret, Alpa.set_step_ct,
    Alpa.get_step_ct, Alpa.in_runtime.
  destruct c as [c'|]; simpl;
    destruct (executable params _ (Alpa.runtime st)) as [[e|o] w];
    reflexivity.
Qed.

Hypothesis executable_returns :
  forall p i w, exists o w', executable p i w = (inr o, w').

Lemma alpa_step_ct_after x c oa ohs st :
  Alpa.step_ct (snd (f x c oa ohs st))
  = match c with None => 0 | Some _ => Alpa.step_ct st end + 1.
Proof.
  rewrite alpa_step. cbv zeta.
  match goal with
  | |- context [executable ?p ?i ?w] =>
      destruct (executable_returns p i w) as (o & w' & E); rewrite E
  end.
  reflexivity.
Qed.

Lemma alpa_never_raises : never_raises f.
Proof.
  intros x c oa ohs st. rewrite alpa_step. cbv zeta.
  match goal with
  | |- context [executable ?p ?i ?w] =>
      destruct (executable_returns p i w) as (o & w' & E); rewrite E
  end.
  eexists. eexists. reflexivity.
Qed.
End AlpaFacts.

Lemma invoke_all_app {Logits Cache Hidden Attn St}
    (g : InferenceFunc Logits Cache Hidden Attn St) hist a s :
  invoke_all g (hist ++ [a]) s
  = snd (g (fst (fst (fst a))) (snd (fst (fst a))) (snd (fst a)) (snd a)
           (invoke_all g hist s)).
Proof.
  revert s. induction hist as [|b hist IH]; intros s; simpl; auto.
Qed.

Lemma logged_returns {St A B} (g : A -> M St B) :
  (forall a s, exists b s', g a s = (inr b, s')) ->
  forall a sl, exists b sl', logged g a sl = (inr b, sl').
Proof.
  intros Hg a [s log]. unfold logged; simpl.
  destruct (Hg a s) as (b & s' & E). rewrite E. eexists. eexists. reflexivity.
Qed.

(** The counter after a history that started at construction. *)
Lemma alpa_step_ct_history {Params Logits Cache Hidden Attn W}
    (pad : Z) (params : Params) (init_cache : Cache)
    (executable : Params -> @Alpa.ExecInput Cache
                  -> M W (@Alpa.ExecOutput Logits Cache Hidden Attn)) :
  (forall p i w, exists o w', executable p i w = (inr o, w')) ->
  forall hist w,
    Alpa.step_ct
      (invoke_all (Alpa.inference_func pad params init_cache executable)
         hist (Alpa.initial_state w))
    = invocations_since_init (rev hist).
Proof.
  intros Hexe hist w. induction hist as [|a hist IH] using rev_ind.
  - reflexivity.
  - rewrite invoke_all_app, rev_unit.
    rewrite (alpa_step_ct_after pad params init_cache executable Hexe).
    cbn [invocations_since_init].
    destruct (snd (fst (fst a))); [rewrite IH|]; lia.
Qed.

Lemma invocations_since_init_nonneg {Cache} (l : list (@Args Cache)) :
  0 <= invocations_since_init l.
Proof.
  induction l as [|a l IH]; cbn [invocations_since_init]; [lia|].
  destruct (snd (fst (fst a))); lia.
Qed.

Lemma demo_executable_returns :
  forall p i w, exists o w', Demo.executable p i w = (inr o, w').
Proof. intros p i w. eexists. eexists. reflexivity. Qed.

Lemma demo_executable_returns_cache :
  forall p i w, exists o w',
    Demo.executable p i w = (inr o, w') /\ Alpa.attention_cache o <> None.
Proof.
  intros p i w. eexists. eexists. split; [reflexivity|]. simpl. discriminate.
Qed.

(** C3: with an executable whose invocations return, the position ids
    handed to the executable at the invocation of step index k (counted
    from the last invocation made with no cache, or from construction)
    are all k plus the fixed offset [pad + 1]; an invocation with no
    cache has step index 0, so the counter starts again from there. *)
Theorem alpa_position_id_is_step_plus_offset
    {Params Logits Cache Hidden Attn W}
    (pad : Z) (params : Params) (init_cache : Cache)
    (executable : Params -> @Alpa.ExecInput Cache
                  -> M W (@Alpa.ExecOutput Logits Cache Hidden Attn))
    (hist : list (@Args Cache))
    (x : Tensor) (c : option Cache) (oa ohs : option bool) (w : W) :
  (forall p i w0, exists o w', executable p i w0 = (inr o, w')) ->
  let f := Alpa.inference_func pad params init_cache
             (fun p => logged (executable p)) in
  let st := invoke_all f hist (Alpa.initial_state (w, [])) in
  let st' := snd (f x c oa ohs st) in
  let k := step_index (hist ++ [(x, c, oa, ohs)]) in
  (exists r,
      snd (Alpa.runtime st')
      = snd (Alpa.runtime st)
        ++ [(Alpa.mkExecInput x (full_like x (k + Alpa.pad_offset pad))
               (match c with None => init_cache | Some c' => c' end), r)])
  /\ 0 <= k
  /\ (c = None -> k = 0)
  /\ Alpa.step_ct st' = k + 1.
Proof.
  intros Hexe f st st' k.
  assert (Hg : forall p i wl, exists o wl',
             (fun p0 => logged (executable p0)) p i wl = (inr o, wl')).
  { intros p i wl. apply logged_returns. apply Hexe. }
  assert (Hst : Alpa.step_ct st = invocations_since_init (rev hist)).
  { subst st f. apply alpa_step_ct_history. exact Hg. }
  assert (Hk : k = match c with None => 0 | Some _ => Alpa.step_ct st end).
  { subst k. unfold step_index. rewrite rev_unit.
    cbn [invocations_since_init fst snd]. rewrite Hst.
    destruct c; [apply Z.add_simpl_l | reflexivity]. }
  assert (Hk0 : 0 <= k).
  { rewrite Hk, Hst. destruct c; [apply invocations_since_init_nonneg|lia]. }
  subst st'. unfold f at 1 2. rewrite alpa_step. cbv zeta. rewrite <- Hk.
  unfold logged. cbv beta.
  destruct (Hexe params
              (Alpa.mkExecInput x (full_like x (k + pad + 1))
                 (match c with None => init_cache | Some c' => c' end))
              (fst (Alpa.runtime st))) as (o & w' & E).
  rewrite E. simpl. unfold Alpa.pad_offset.
  replace (k + (pad + 1)) with (k + pad + 1) by lia.
  repeat split; auto.
  - eexists. reflexivity.
  - intros ->. exact Hk.
Qed.

Lemma alpa_position_id_is_step_plus_offset_witness :
  exists r,
    snd (Alpa.runtime
           (invoke_all
              (Alpa.inference_func (Hidden := unit) (Attn := unit)
                 1 tt [] (fun p => logged (Demo.executable p)))
              [({| ncols := 1; rows := [[11]] |}, None, None, None);
               ({| ncols := 1; rows := [[12]] |}, Some [[11]], None, None);
               ({| ncols := 1; rows := [[13]] |}, Some [[11]; [12]],
                None, None)]
              (Alpa.initial_state (tt, []))))
    = [(Alpa.mkExecInput {| ncols := 1; rows := [[11]] |}
          {| ncols := 1; rows := [[2]] |} [],
        inr (Alpa.mkExecOutput {| ncols := 1; rows := [[2]] |}
               (Some [[11]]) None None));
       (Alpa.mkExecInput {| ncols := 1; rows := [[12]] |}
          {| ncols := 1; rows := [[3]] |} [[11]],
        inr (Alpa.mkExecOutput {| ncols := 1; rows := [[3]] |}
               (Some [[11]; [12]]) None None))]
      ++ [(Alpa.mkExecInput {| ncols := 1; rows := [[13]] |}
             {| ncols := 1; rows := [[4]] |} [[11]; [12]], r)].
Proof.
  exact (proj1 (alpa_position_id_is_step_plus_offset
                  (Hidden := unit) (Attn := unit)
                  1 tt [] Demo.executable
                  [({| ncols := 1; rows := [[11]] |}, None, None, None);
                   ({| ncols := 1; rows := [[12]] |}, Some [[11]], None, None)]
                  {| ncols := 1; rows := [[13]] |} (Some [[11]; [12]])
                  None None tt demo_executable_returns)).
Defined.

Lemma call_final_state {Logits Cache Hidden Attn St}
    (g : InferenceFunc Logits Cache Hidden Attn St) t pkv oa ohs s :
  snd (__call__ g t pkv oa ohs s)
  = snd (call_loop g t oa ohs (seq 0 (shape1 t)) None pkv s).
Proof.
  unfold __call__, bind.
  destruct (call_loop g t oa ohs (seq 0 (shape1 t)) None pkv s)
    as [[e|[r|]] s']; reflexivity.
Qed.

Section AlpaCounter.
Context {Params Logits Cache Hidden Attn W : Type}.
Variables (pad : Z) (params : Params) (init_cache : Cache).
Variable executable :
  Params -> @Alpa.ExecInput Cache
  -> M W (@Alpa.ExecOutput Logits Cache Hidden Attn).
Hypothesis executable_returns_cache :
  forall p i w, exists o w',
    executable p i w = (inr o, w') /\ Alpa.attention_cache o <> None.

Let f := Alpa.inference_func pad params init_cache executable.

(** One invocation returns a cache and moves the counter by one from
    where the invocation started counting. *)
Lemma alpa_step_returns_cache x c oa ohs st :
  exists o c' st',
    f x c oa ohs st = (inr o, st')
    /\ past_key_values o = Some c'
    /\ Alpa.step_ct st'
       = match c with None => 0 | Some _ => Alpa.step_ct st end + 1.
Proof.
  unfold f. rewrite alpa_step. cbv zeta.
  match goal with
  | |- context [executable ?p ?i ?w] =>
      destruct (executable_returns_cache p i w) as (o & w' & E & Hc);
      rewrite E
  end.
  destruct (Alpa.attention_cache o) as [c'|] eqn:Ec; [|congruence].
  eexists. exists c'. eexists. split; [reflexivity|]. split; reflexivity.
Qed.

Lemma alpa_loop_step_ct t oa ohs :
  forall idxs ret c st,
    Alpa.step_ct (snd (call_loop f t oa ohs idxs ret (Some c) st))
    = Alpa.step_ct st + Z.of_nat (length idxs).
Proof.
  induction idxs as [|i idxs IH]; intros ret c st.
  - simpl. lia.
  - cbn [call_loop]. unfold bind.
    destruct (alpa_step_returns_cache (slice_cols t i (i + 1)) (Some c)
                oa ohs st) as (o & c' & st' & E & Ec & Hct).
    rewrite E, Ec, IH, Hct. cbn [length]. lia.
Qed.

Lemma alpa_call_step_ct t oa ohs st :
  (1 <= shape1 t)%nat \/ Alpa.step_ct st = 0 ->
  Alpa.step_ct (snd (__call__ f t None oa ohs st)) = Z.of_nat (shape1 t).
Proof.
  intros H. rewrite call_final_state.
  destruct (shape1 t) as [|n] eqn:En.
  - simpl. destruct H; [lia | assumption].
  - cbn [seq call_loop]. unfold bind.
    destruct (alpa_step_returns_cache (slice_cols t 0 (0 + 1)) None
                oa ohs st) as (o & c' & st' & E & Ec & Hct).
    rewrite E, Ec, alpa_loop_step_ct, Hct, length_seq. lia.
Qed.
End AlpaCounter.

(** C4: with an executable whose invocations return a cache, a call with
    a length-N prompt and no cache leaves the step counter at N (for
    N = 0 on a fresh backend, whose counter is 0); a later backend
    invocation with a cache, and a later call on one token with a cache,
    each raise it by exactly 1. *)
Theorem alpa_step_counter_counts_tokens
    {Params Logits Cache Hidden Attn W}
    (pad : Z) (params : Params) (init_cache : Cache)
    (executable : Params -> @Alpa.ExecInput Cache
                  -> M W (@Alpa.ExecOutput Logits Cache Hidden Attn))
    (t : Tensor) (oa ohs : option bool) (st : @Alpa.State W) :
  (forall p i w, exists o w',
      executable p i w = (inr o, w') /\ Alpa.attention_cache o <> None) ->
  (1 <= shape1 t)%nat \/ Alpa.step_ct st = 0 ->
  let f := Alpa.inference_func pad params init_cache executable in
  Alpa.step_ct (snd (__call__ f t None oa ohs st)) = Z.of_nat (shape1 t)
  /\ (forall x c st1,
        Alpa.step_ct (snd (f x (Some c) oa ohs st1))
        = Alpa.step_ct st1 + 1)
  /\ (forall x c st1,
        shape1 x = 1%nat ->
        Alpa.step_ct (snd (__call__ f x (Some c) oa ohs st1))
        = Alpa.step_ct st1 + 1).
Proof.
  intros Hexe Hstart f. repeat split.
  - now apply alpa_call_step_ct.
  - intros x c st1.
    destruct (alpa_step_returns_cache pad params init_cache executable Hexe
                x (Some c) oa ohs st1) as (o & c' & st' & E & _ & Hct).
    unfold f. rewrite E. exact Hct.
  - intros x c st1 Hx. rewrite call_final_state.
    unfold f. rewrite alpa_loop_step_ct by exact Hexe.
    rewrite length_seq, Hx. reflexivity.
Qed.

Lemma alpa_step_counter_counts_tokens_witness :
  Alpa.step_ct
    (snd (__call__
            (Alpa.inference_func (Hidden := unit) (Attn := unit)
               1 tt [] Demo.executable)
            Demo.prompt None None None (Alpa.initial_state tt)))
  = 3.
Proof.
  exact (proj1 (alpa_step_counter_counts_tokens
                  (Hidden := unit) (Attn := unit)
                  1 tt [] Demo.executable Demo.prompt None None
                  (Alpa.initial_state tt)
                  demo_executable_returns_cache
                  (or_introl (le_S _ _ (le_S _ _ (le_n 1)))))).
Defined.

(** ** The weight-decay mask *)

Lemma lookup_map_snd {A B} (g : A -> B) name items :
  Train.lookup name (map (fun kv => (fst kv, g (snd kv))) items)
  = option_map g (Train.lookup name items).
Proof.
  induction items as [|[k v] items IH]; simpl; [reflexivity|].
  destruct (String.eqb name k); [reflexivity | exact IH].
Qed.

Lemma child_tree_map {A B} (g : A -> B) k t :
  Train.child k (Train.tree_map g t)
  = option_map (Train.tree_map g) (Train.child k t).
Proof.
  destruct k as [name|pos], t as [a| |items|items]; simpl; try reflexivity.
  - apply lookup_map_snd.
  - apply nth_error_map.
Qed.

Lemma leaf_at_tree_map {A B} (g : A -> B) path :
  forall t,
    Train.leaf_at path (Train.tree_map g t)
    = option_map g (Train.leaf_at path t).
Proof.
  induction path as [|k path IH]; intros t.
  - destruct t; reflexivity.
  - cbn [Train.leaf_at]. rewrite child_tree_map.
    destruct (Train.child k t) as [t'|]; simpl; [apply IH | reflexivity].
Qed.

(** C5: wherever the parameter pytree holds a tensor, both masks hold a
    flag at the same place: false when the tensor has exactly one
    dimension, true when it has more than one. *)
Theorem weight_decay_mask_by_ndim {D}
    (pytree0 : Train.pytree (Train.Array D)) (path : list Train.key)
    (x : Train.Array D) :
  Train.leaf_at path pytree0 = Some x ->
  (Train.ndim x = 1%nat ->
   Train.leaf_at path (Train.weight_decay_mask pytree0) = Some false
   /\ Train.leaf_at path (Train.weight_decay_mask_aval pytree0) = Some false)
  /\ ((1 < Train.ndim x)%nat ->
      Train.leaf_at path (Train.weight_decay_mask pytree0) = Some true
      /\ Train.leaf_at path (Train.weight_decay_mask_aval pytree0)
         = Some true).
Proof.
  intros Hx. unfold Train.weight_decay_mask, Train.weight_decay_mask_aval.
  rewrite leaf_at_tree_map, Hx. simpl. split.
  - intros ->. split; reflexivity.
  - intros Hn. apply Nat.ltb_lt in Hn. rewrite Hn. split; reflexivity.
Qed.

Lemma weight_decay_mask_by_ndim_witness :
  Train.leaf_at [Train.DictKey "dense"; Train.DictKey "bias"]
    (Train.weight_decay_mask Demo.params) = Some false
  /\ Train.leaf_at [Train.DictKey "dense"; Train.DictKey "kernel"]
       (Train.weight_decay_mask Demo.params) = Some true.
Proof.
  split.
  - exact (proj1 (proj1 (weight_decay_mask_by_ndim Demo.params
                           [Train.DictKey "dense"; Train.DictKey "bias"]
                           (Train.mkArray [8]%nat tt) eq_refl)
                    eq_refl)).
  - exact (proj1 (proj2 (weight_decay_mask_by_ndim Demo.params
                           [Train.DictKey "dense"; Train.DictKey "kernel"]
                           (Train.mkArray [4; 8]%nat tt) eq_refl)
                    (le_n 2))).
Defined.

(** * Further properties of the adapter *)

(** X1: a failure of the backend is propagated as it is.  Whatever the
    backend does, a call makes at most one invocation per position,
    every invocation before the last one returned, and the call raises
    exactly when the input is empty (the unbound local) or the last
    invocation raised (with that very exception). *)
Theorem call_stops_at_first_failure
    {Logits Cache Hidden Attn St}
    (f : InferenceFunc Logits Cache Hidden Attn St)
    (t : Tensor) (pkv : option Cache) (oa ohs : option bool) (s : St) :
  let log := snd (snd (__call__ (traced f) t pkv oa ohs (s, []))) in
  (length log <= shape1 t)%nat
  /\ (forall i inv,
        nth_error log i = Some inv -> (S i < length log)%nat ->
        exists o, inv_result inv = inr o)
  /\ (forall e,
        fst (__call__ f t pkv oa ohs s) = inl e ->
        (shape1 t = 0%nat /\ e = UnboundLocalError "ret")
        \/ exists inv,
             nth_error log (length log - 1) = Some inv
             /\ inv_result inv = inl e)
  /\ (forall inv e,
        nth_error log (length log - 1) = Some inv ->
        inv_result inv = inl e ->
        fst (__call__ f t pkv oa ohs s) = inl e).
Proof.
  intros log. subst log. rewrite call_traced. simpl.
  set (log := loop_invocations f t oa ohs (seq 0 (shape1 t)) pkv s).
  assert (Hseq : shape1 t <> 0%nat -> seq 0 (shape1 t) <> []).
  { intros Hn. destruct (shape1 t); [congruence | discriminate]. }
  assert (Hcall : forall inv,
             nth_error log (length log - 1) = Some inv ->
             fst (__call__ f t pkv oa ohs s) = inv_result inv).
  { intros inv Hinv. destruct (Nat.eq_dec (shape1 t) 0) as [En|En].
    - subst log. rewrite En in Hinv. discriminate Hinv.
    - destruct (call_loop_outcome f t oa ohs (seq 0 (shape1 t)) None pkv s
                  (Hseq En)) as (inv' & H1 & H2).
      fold log in H1. rewrite Hinv in H1. injection H1 as <-.
      unfold __call__, bind.
      destruct (call_loop f t oa ohs (seq 0 (shape1 t)) None pkv s)
        as [r s'].
      simpl in H2. subst r. destruct (inv_result inv); reflexivity. }
  repeat split.
  - subst log. eapply Nat.le_trans; [apply loop_invocations_length_le|].
    rewrite length_seq. apply Nat.le_refl.
  - intros i inv Hi Hlt.
    destruct (nth_error log (S i)) as [b|] eqn:Eb.
    + destruct (loop_invocations_chain f t oa ohs _ _ _ _ _ _ Hi Eb)
        as (o & Ho & _).
      exists o. exact Ho.
    + apply nth_error_None in Eb. lia.
  - intros e He. destruct (Nat.eq_dec (shape1 t) 0) as [En|En].
    + left. split; [exact En|].
      unfold __call__, bind in He. rewrite En in He. simpl in He.
      now injection He as <-.
    + right.
      destruct (call_loop_outcome f t oa ohs (seq 0 (shape1 t)) None pkv s
                  (Hseq En)) as (inv & H1 & _).
      fold log in H1.
      exists inv. split; [exact H1|].
      rewrite <- (Hcall inv H1). exact He.
  - intros inv e Hinv He. rewrite (Hcall inv Hinv). exact He.
Qed.

Lemma slice_cols_all t :
  wf_tensor t -> slice_cols t 0 (shape1 t) = t.
Proof.
  destruct t as [n rs]. unfold wf_tensor, slice_cols, shape1; simpl.
  intros Hwf. f_equal; [lia|].
  rewrite <- (map_id rs) at 2. apply map_ext_in. intros r Hr.
  rewrite Forall_forall in Hwf. specialize (Hwf r Hr).
  rewrite Nat.sub_0_r. apply firstn_all2. lia.
Qed.

Lemma call_single_position
    {Logits Cache Hidden Attn St}
    (f : InferenceFunc Logits Cache Hidden Attn St)
    (x : Tensor) (pkv : option Cache) (oa ohs : option bool) (s : St) :
  wf_tensor x -> shape1 x = 1%nat ->
  __call__ f x pkv oa ohs s = f x pkv oa ohs s.
Proof.
  intros Hwf H1. pose proof (slice_cols_all x Hwf) as Hall.
  rewrite H1 in Hall.
  unfold __call__, bind. rewrite H1. simpl. unfold bind.
  rewrite Hall.
  destruct (f x pkv oa ohs s) as [[e|o] s']; reflexivity.
Qed.

(** X3: on an input with exactly one position the adapter is the
    backend: one invocation on that input, and its outcome and state
    are the call's. *)
Theorem call_on_one_token_is_backend
    {Logits Cache Hidden Attn St}
    (f : InferenceFunc Logits Cache Hidden Attn St)
    (x : Tensor) (pkv : option Cache) (oa ohs : option bool) (s : St) :
  wf_tensor x -> shape1 x = 1%nat ->
  __call__ f x pkv oa ohs s = f x pkv oa ohs s
  /\ snd (snd (__call__ (traced f) x pkv oa ohs (s, [])))
     = [((x, pkv, oa, ohs), fst (f x pkv oa ohs s))].
Proof.
  intros Hwf H1. split; [now apply call_single_position|].
  pose proof (slice_cols_all x Hwf) as Hall. rewrite H1 in Hall.
  rewrite call_traced. cbn [snd fst]. rewrite H1.
  cbn [seq loop_invocations app]. change (0 + 1)%nat with 1%nat.
  rewrite Hall.
  destruct (f x pkv oa ohs s) as [[e|o] s']; reflexivity.
Qed.

Lemma call_on_one_token_is_backend_witness :
  __call__ Demo.backend {| ncols := 1; rows := [[11]] |} None None None 0%nat
  = Demo.backend {| ncols := 1; rows := [[11]] |} None None None 0%nat.
Proof.
  apply (proj1 (call_on_one_token_is_backend Demo.backend
                  {| ncols := 1; rows := [[11]] |} None None None 0%nat
                  ltac:(repeat constructor) eq_refl)).
Defined.

(** ** One call on a prompt against several calls on its parts *)

Lemma slice_of_slice t a b i :
  (i < b - a)%nat -> (b <= shape1 t)%nat ->
  slice_cols (slice_cols t a b) i (i + 1) = slice_cols t (a + i) (a + i + 1).
Proof.
  unfold slice_cols, shape1; simpl. intros Hi Hb. f_equal; [lia|].
  rewrite map_map. apply map_ext. intros r.
  replace (i + 1 - i)%nat with 1%nat by lia.
  replace (a + i + 1 - (a + i))%nat with 1%nat by lia.
  rewrite skipn_firstn_comm, firstn_firstn, skipn_skipn.
  replace (Nat.min 1 (b - a - i)) with 1%nat by lia.
  f_equal. f_equal. lia.
Qed.

Lemma seq_from k m : seq k m = map (Nat.add k) (seq 0 m).
Proof.
  induction k as [|k IH]; simpl.
  - symmetry. apply map_id.
  - rewrite <- seq_shift, IH, map_map. reflexivity.
Qed.

Section LoopAlgebra.
Context {Logits Cache Hidden Attn St : Type}.
Variable f : InferenceFunc Logits Cache Hidden Attn St.
Variables (oa ohs : option bool).

(** The loop reads its tensor only through the slices it takes. *)
Lemma call_loop_ext t t' (g : nat -> nat) :
  forall idxs ret pkv s,
    (forall i, In i idxs ->
               slice_cols t' (g i) (g i + 1) = slice_cols t i (i + 1)) ->
    call_loop f t' oa ohs (map g idxs) ret pkv s
    = call_loop f t oa ohs idxs ret pkv s.
Proof.
  induction idxs as [|i idxs IH]; intros ret pkv s H; [reflexivity|].
  simpl. unfold bind. rewrite (H i (or_introl eq_refl)).
  destruct (f (slice_cols t i (i + 1)) pkv oa ohs s) as [[e|o] s'];
    [reflexivity|].
  apply IH. intros j Hj. apply H. now right.
Qed.

(** Once the loop has made an invocation the value [ret] had before is
    gone. *)
Lemma call_loop_ret_overwritten t idxs ret ret' pkv s :
  idxs <> [] ->
  call_loop f t oa ohs idxs ret pkv s
  = call_loop f t oa ohs idxs ret' pkv s.
Proof. destruct idxs; [congruence | reflexivity]. Qed.

Lemma call_loop_some t :
  forall idxs ret pkv s r s',
    idxs <> [] ->
    call_loop f t oa ohs idxs ret pkv s = (inr r, s') ->
    exists o, r = Some o.
Proof.
  induction idxs as [|i idxs IH]; intros ret pkv s r s' Hne; [congruence|].
  simpl. unfold bind.
  destruct (f (slice_cols t i (i + 1)) pkv oa ohs s) as [[e|o] s1];
    [discriminate|].
  destruct idxs as [|j idxs].
  - simpl. unfold mret. intros [= <- _]. now exists o.
  - apply IH. discriminate.
Qed.

(** Running the loop over [l1 ++ l2] is running it over [l1] and then
    over [l2] from the output, cache and state that [l1] left. *)
Lemma call_loop_app t :
  forall l1 l2 ret pkv s o1 s1,
    l1 <> [] ->
    call_loop f t oa ohs l1 ret pkv s = (inr (Some o1), s1) ->
    call_loop f t oa ohs (l1 ++ l2) ret pkv s
    = call_loop f t oa ohs l2 (Some o1) (past_key_values o1) s1.
Proof.
  induction l1 as [|i l1 IH]; intros l2 ret pkv s o1 s1 Hne; [congruence|].
  simpl. unfold bind.
  destruct (f (slice_cols t i (i + 1)) pkv oa ohs s) as [[e|o] s'];
    [discriminate|].
  destruct l1 as [|j l1].
  - simpl. unfold mret. intros [= <- <-]. reflexivity.
  - apply IH. discriminate.
Qed.
End LoopAlgebra.

(** X2: unrolling a prompt is the same as feeding it in two parts.  If
    the call on the first k positions (0 < k < N) returns, the call on
    the whole input equals the call on the remaining positions made
    with the cache the first call returned, from the state it left. *)
Theorem call_on_prompt_splits
    {Logits Cache Hidden Attn St}
    (f : InferenceFunc Logits Cache Hidden Attn St)
    (t : Tensor) (k : nat) (pkv : option Cache) (oa ohs : option bool)
    (s s1 : St) (o1 : InferenceFuncOutput Logits Cache Hidden Attn) :
  (0 < k)%nat -> (k < shape1 t)%nat ->
  __call__ f (slice_cols t 0 k) pkv oa ohs s = (inr o1, s1) ->
  __call__ f t pkv oa ohs s
  = __call__ f (slice_cols t k (shape1 t)) (past_key_values o1) oa ohs s1.
Proof.
  intros Hk HkN H1.
  assert (Hsh1 : shape1 (slice_cols t 0 k) = k)
    by (unfold shape1, slice_cols in *; simpl; lia).
  assert (Hsh2 : shape1 (slice_cols t k (shape1 t)) = (shape1 t - k)%nat)
    by (unfold shape1, slice_cols in *; simpl; lia).
  assert (Hk0 : seq 0 k <> []) by (destruct k; [lia | discriminate]).
  assert (Hr0 : seq 0 (shape1 t - k) <> [])
    by (destruct (shape1 t - k)%nat eqn:E; [lia | discriminate]).
  (* the first part, read on the whole tensor *)
  assert (Hfirst : call_loop f t oa ohs (seq 0 k) None pkv s
                   = (inr (Some o1), s1)).
  { unfold __call__, bind in H1. rewrite Hsh1 in H1.
    rewrite <- (map_id (seq 0 k)) in H1.
    rewrite (call_loop_ext f oa ohs t (slice_cols t 0 k) (fun i => i)) in H1.
    - destruct (call_loop f t oa ohs (seq 0 k) None pkv s)
        as [[e|[r|]] s'] eqn:E; try discriminate.
      unfold mret in H1. now injection H1 as <- <-.
    - intros i Hi. apply in_seq in Hi.
      rewrite (slice_of_slice t 0 k i) by lia. reflexivity. }
  unfold __call__ at 1 2. unfold bind.
  replace (shape1 t) with (k + (shape1 t - k))%nat at 1 by lia.
  rewrite seq_app, (call_loop_app f oa ohs t _ _ _ _ _ _ _ Hk0 Hfirst).
  rewrite Hsh2. simpl Nat.add.
  rewrite (seq_from k).
  rewrite (call_loop_ext f oa ohs (slice_cols t k (shape1 t)) t (Nat.add k)).
  - rewrite (call_loop_ret_overwritten f oa ohs _ _ (Some o1) None _ _ Hr0).
    reflexivity.
  - intros i Hi. apply in_seq in Hi.
    symmetry. apply slice_of_slice; lia.
Qed.

Lemma call_on_prompt_splits_witness :
  __call__ Demo.backend Demo.prompt None None None 0%nat
  = __call__ Demo.backend {| ncols := 1; rows := [[13]] |}
      (Some [[11]; [12]]) None None 2%nat.
Proof.
  apply (call_on_prompt_splits Demo.backend Demo.prompt 2 None None None
           0%nat 2%nat
           (mkInferenceFuncOutput (Some {| ncols := 1; rows := [[12]] |})
              (Some [[11]; [12]]) None None)).
  - lia.
  - simpl; lia.
  - reflexivity.
Defined.

(** ** Preparing a step and making it *)

Lemma prepare_inputs_truthy {Cache} (cache_bool : Cache -> bool)
    (input_ids : Tensor) (past : option Cache) :
  py_bool cache_bool past = true ->
  wf_tensor input_ids -> (1 <= shape1 input_ids)%nat ->
  prepare_inputs_for_generation cache_bool input_ids past
  = inr {| pi_input_ids :=
             slice_cols input_ids (shape1 input_ids - 1) (shape1 input_ids);
           pi_past_key_values := past |}.
Proof.
  unfold prepare_inputs_for_generation, shape1, select_last.
  intros Hb Hwf Hn. rewrite Hb.
  destruct (ncols input_ids) as [|n] eqn:E; [lia|].
  rewrite (unsqueeze_select_last input_ids n Hwf E).
  simpl. rewrite Nat.sub_0_r. do 2 f_equal. f_equal. lia.
Qed.

Lemma slice_cols_wf t i j : wf_tensor t -> wf_tensor (slice_cols t i j).
Proof.
  unfold wf_tensor, slice_cols; simpl. intros Hwf.
  apply Forall_forall. intros r Hr.
  apply in_map_iff in Hr as (r0 & <- & Hr0).
  rewrite Forall_forall in Hwf. specialize (Hwf r0 Hr0).
  rewrite length_firstn, length_skipn. lia.
Qed.

(** X4: a step prepared with a truthy cache costs one backend
    invocation.  The prepared input has one position, and calling the
    adapter on the prepared input and cache is a single invocation of
    the backend on the last position of the sequence with that cache. *)
Theorem prepared_step_is_one_invocation
    {Logits Cache Hidden Attn St}
    (cache_bool : Cache -> bool)
    (f : InferenceFunc Logits Cache Hidden Attn St)
    (input_ids : Tensor) (past : option Cache) (oa ohs : option bool)
    (s : St) :
  py_bool cache_bool past = true ->
  wf_tensor input_ids -> (1 <= shape1 input_ids)%nat ->
  exists p,
    prepare_inputs_for_generation cache_bool input_ids past = inr p
    /\ shape0 (pi_input_ids p) = shape0 input_ids
    /\ shape1 (pi_input_ids p) = 1%nat
    /\ __call__ f (pi_input_ids p) (pi_past_key_values p) oa ohs s
       = f (slice_cols input_ids (shape1 input_ids - 1) (shape1 input_ids))
           past oa ohs s
    /\ snd (snd (__call__ (traced f) (pi_input_ids p)
                   (pi_past_key_values p) oa ohs (s, [])))
       = [((slice_cols input_ids (shape1 input_ids - 1) (shape1 input_ids),
            past, oa, ohs),
           fst (f (slice_cols input_ids (shape1 input_ids - 1)
                     (shape1 input_ids)) past oa ohs s))].
Proof.
  intros Hb Hwf Hn. eexists. split.
  { apply prepare_inputs_truthy; assumption. }
  cbn [pi_input_ids pi_past_key_values].
  set (x := slice_cols input_ids (shape1 input_ids - 1) (shape1 input_ids)).
  assert (Hx1 : shape1 x = 1%nat)
    by (subst x; unfold shape1, slice_cols in *; simpl; lia).
  assert (Hxwf : wf_tensor x) by (subst x; now apply slice_cols_wf).
  repeat split.
  - subst x. unfold shape0, slice_cols; simpl. apply length_map.
  - exact Hx1.
  - now apply call_single_position.
  - rewrite call_traced. cbn [snd fst]. rewrite Hx1.
    cbn [seq loop_invocations app]. change (0 + 1)%nat with 1%nat.
    pose proof (slice_cols_all x Hxwf) as Hall. rewrite Hx1 in Hall.
    rewrite Hall.
    destruct (f x past oa ohs s) as [[e|o] s']; reflexivity.
Qed.

Lemma prepared_step_is_one_invocation_witness :
  exists p,
    prepare_inputs_for_generation Demo.cache_bool Demo.prompt
      (Some [[11]; [12]]) = inr p
    /\ length (snd (snd (__call__ (traced Demo.backend) (pi_input_ids p)
                           (pi_past_key_values p) None None (0%nat, []))))
       = 1%nat.
Proof.
  destruct (prepared_step_is_one_invocation Demo.cache_bool Demo.backend
              Demo.prompt (Some [[11]; [12]]) None None 0%nat eq_refl
              ltac:(repeat constructor) ltac:(simpl; lia))
    as (p & Hp & _ & _ & _ & Hlog).
  exists p. split; [exact Hp|]. rewrite Hlog. reflexivity.
Defined.

(** X5: [prepare_inputs_for_generation] raises exactly when the cache
    is truthy and the sequence has no position, and then with
    [IndexError]; a cache that is absent or present but falsy leaves
    the input as it is and is still passed on. *)
Theorem prepare_inputs_raises_iff
    {Cache} (cache_bool : Cache -> bool)
    (input_ids : Tensor) (past : option Cache) :
  (forall e,
      prepare_inputs_for_generation cache_bool input_ids past = inl e
      <-> (py_bool cache_bool past = true /\ shape1 input_ids = 0%nat
           /\ e = IndexError))
  /\ (py_bool cache_bool past = false ->
      prepare_inputs_for_generation cache_bool input_ids past
      = inr {| pi_input_ids := input_ids; pi_past_key_values := past |}).
Proof.
  unfold prepare_inputs_for_generation, select_last, shape1. split.
  - intros e. destruct (py_bool cache_bool past).
    + destruct (ncols input_ids) as [|n].
      * split.
        -- intros [= <-]. repeat split.
        -- intros (_ & _ & ->). reflexivity.
      * split; [discriminate|]. intros (_ & H & _). discriminate H.
    + split; [discriminate|]. intros (H & _). discriminate H.
  - intros ->. reflexivity.
Qed.

(** * Further properties of the backends *)

(** X6: the causal-LM backend reads the cache length from the first
    tensor of the first layer.  A cache that has no layer, whose first
    layer is empty, or whose first tensor has fewer than three
    dimensions makes the backend raise [IndexError] before the model is
    called. *)
Theorem opt_malformed_cache_raises
    {Logits Payload Hidden Attn W}
    (raw_model : @Opt.ModelArgs Payload -> M W (@Opt.ModelOutput Logits Payload))
    (input_ids : Tensor) (c : @Opt.Cache Payload)
    (oa ohs : option bool) (w : W) :
  (forall t layer rest,
      c = (t :: layer) :: rest -> (length (Opt.kv_shape t) < 3)%nat) ->
  Opt.inference_func (Hidden := Hidden) (Attn := Attn)
    (logged raw_model) input_ids (Some c) oa ohs (w, [])
  = (inl IndexError, (w, [])).
Proof.
  intros Hc.
  assert (Hlen : Opt.past_length_of c = inl IndexError).
  { unfold Opt.past_length_of, index.
    destruct c as [|[|t layer] rest]; simpl; try reflexivity.
    specialize (Hc t layer rest eq_refl).
    destruct (Opt.kv_shape t) as [|a [|b [|d l]]]; simpl in *;
      try reflexivity; lia. }
  unfold Opt.inference_func, bind, lift_result. rewrite Hlen. reflexivity.
Qed.

Lemma opt_malformed_cache_raises_witness :
  Opt.inference_func (Hidden := unit) (Attn := unit)
    (logged Demo.raw_model) {| ncols := 1; rows := [[11]] |}
    (Some [[Opt.mkKVTensor [1; 12]%nat tt]]) None None (tt, [])
  = (inl IndexError, (tt, [])).
Proof.
  apply opt_malformed_cache_raises.
  intros t layer rest [= <- _ _]. simpl. lia.
Defined.

(** X7: whatever flags they are given, the plain and the causal-LM
    backends return no hidden states and no attentions: a returned
    output carries the model's logits and the model's cache and nothing
    else. *)
Theorem plain_backends_drop_hidden_states_and_attentions
    {Logits Cache Payload Hidden Attn W}
    (gpt_model : Tensor -> option Cache -> option bool -> option bool
                 -> M W (@Gpt.ModelOutput Logits Cache))
    (opt_model : @Opt.ModelArgs Payload
                 -> M W (@Opt.ModelOutput Logits Payload))
    (x : Tensor) (oa ohs : option bool) (w : W) :
  (forall c o w',
      Gpt.inference_func (Hidden := Hidden) (Attn := Attn)
        gpt_model x c oa ohs w = (inr o, w') ->
      hidden_states o = None /\ attentions o = None
      /\ exists out,
           gpt_model x c oa ohs w = (inr out, w')
           /\ logits o = Some (Gpt.out_logits out)
           /\ past_key_values o = Gpt.out_past_key_values out)
  /\ (forall c o w',
        Opt.inference_func (Hidden := Hidden) (Attn := Attn)
          opt_model x c oa ohs w = (inr o, w') ->
        hidden_states o = None /\ attentions o = None
        /\ exists out mask,
             opt_model (Opt.mkModelArgs x mask c oa ohs) w = (inr out, w')
             /\ logits o = Some (Opt.out_logits out)
             /\ past_key_values o = Opt.out_past_key_values out).
Proof.
  split.
  - intros c o w'. unfold Gpt.inference_func, bind, mret.
    destruct (gpt_model x c oa ohs w) as [[e|out] w1]; [discriminate|].
    intros [= <- <-]. repeat split. exists out. repeat split.
  - intros c o w'. unfold Opt.inference_func, bind, mret, lift_result.
    destruct c as [c|].
    + destruct (Opt.past_length_of c) as [e|n]; [discriminate|].
      destruct (opt_model _ w) as [[e|out] w1] eqn:E; [discriminate|].
      intros [= <- <-]. repeat split. exists out. eexists.
      split; [exact E|]. split; reflexivity.
    + destruct (opt_model _ w) as [[e|out] w1] eqn:E; [discriminate|].
      intros [= <- <-]. repeat split. exists out. eexists.
      split; [exact E|]. split; reflexivity.
Qed.

(** X8: when the executable raises, the distributed backend raises the
    same exception and does not count the step; an invocation made with
    no cache has by then already put the counter back to 0. *)
Theorem alpa_failed_step_is_not_counted
    {Params Logits Cache Hidden Attn W}
    (pad : Z) (params : Params) (init_cache : Cache)
    (executable : Params -> @Alpa.ExecInput Cache
                  -> M W (@Alpa.ExecOutput Logits Cache Hidden Attn))
    (x : Tensor) (c : option Cache) (oa ohs : option bool)
    (st : @Alpa.State W) (e : exn) (w' : W) :
  let ct := match c with None => 0 | Some _ => Alpa.step_ct st end in
  executable params
    (Alpa.mkExecInput x (full_like x (ct + Alpa.pad_offset pad))
       (match c with None => init_cache | Some c' => c' end))
    (Alpa.runtime st) = (inl e, w') ->
  Alpa.inference_func pad params init_cache executable x c oa ohs st
  = (inl e, Alpa.mkState ct w').
Proof.
  intros ct H. rewrite alpa_step. cbv zeta. fold ct.
  unfold Alpa.pad_offset in H.
  replace (ct + pad + 1) with (ct + (pad + 1)) by lia.
  rewrite H. reflexivity.
Qed.

Lemma alpa_failed_step_is_not_counted_witness :
  Alpa.inference_func (Logits := Tensor) (Hidden := unit) (Attn := unit)
    1 tt ([] : list (list Z))
    (fun _ _ w => (inl (ExternalError "worker lost"), w))
    {| ncols := 1; rows := [[11]] |} None None None (Alpa.mkState 7 tt)
  = (inl (ExternalError "worker lost"), Alpa.mkState 0 tt).
Proof.
  apply (alpa_failed_step_is_not_counted (Logits := Tensor)
           (Hidden := unit) (Attn := unit) 1 tt ([] : list (list Z))
           (fun _ _ w => (inl (ExternalError "worker lost"), w))).
  reflexivity.
Defined.

Section AlpaPrompt.
Context {Params Logits Cache Hidden Attn W : Type}.
Variables (pad : Z) (params : Params) (init_cache : Cache).
Variable executable :
  Params -> @Alpa.ExecInput Cache
  -> M W (@Alpa.ExecOutput Logits Cache Hidden Attn).
Hypothesis executable_returns_cache :
  forall p i w, exists o w',
    executable p i w = (inr o, w') /\ Alpa.attention_cache o <> None.
Variables (t : Tensor) (oa ohs : option bool).

Let f := Alpa.inference_func pad params init_cache
           (fun p => logged (executable p)).

(** What the executable is handed for position [i] at step [k]. *)
Let handed (k : Z) (i : nat) : Tensor * Tensor :=
  (slice_cols t i (i + 1),
   full_like (slice_cols t i (i + 1)) (k + Alpa.pad_offset pad)).

Let seen (e : @Alpa.ExecInput Cache
              * result (@Alpa.ExecOutput Logits Cache Hidden Attn))
  : Tensor * Tensor :=
  (Alpa.in_input_ids (fst e), Alpa.in_position_ids (fst e)).

Lemma alpa_logged_step i c st :
  let ct := match c with None => 0 | Some _ => Alpa.step_ct st end in
  exists o c' w' r,
    f (slice_cols t i (i + 1)) c oa ohs st
    = (inr o,
       Alpa.mkState (ct + 1)
         (w', snd (Alpa.runtime st)
              ++ [(Alpa.mkExecInput (fst (handed ct i)) (snd (handed ct i))
                     (match c with None => init_cache | Some c0 => c0 end),
                   r)]))
    /\ past_key_values o = Some c'.
Proof.
  intros ct. unfold f. rewrite alpa_step. cbv zeta. fold ct.
  unfold logged, handed, Alpa.pad_offset. cbn [fst snd].
  replace (ct + (pad + 1)) with (ct + pad + 1) by lia.
  match goal with
  | |- context [executable ?p ?a ?w] =>
      destruct (executable_returns_cache p a w) as (o & w' & E & Hc);
      rewrite E
  end.
  destruct (Alpa.attention_cache o) as [c'|] eqn:Ec; [|congruence].
  eexists. exists c'. eexists. eexists. split; reflexivity.
Qed.

Lemma alpa_loop_handed :
  forall m a ret c st,
    Alpa.step_ct st = Z.of_nat a ->
    exists new,
      snd (Alpa.runtime
             (snd (call_loop f t oa ohs (seq a m) ret (Some c) st)))
      = snd (Alpa.runtime st) ++ new
      /\ map seen new = map (fun i => handed (Z.of_nat i) i) (seq a m).
Proof.
  induction m as [|m IH]; intros a ret c st Hct.
  - exists []. simpl. now rewrite app_nil_r.
  - cbn [seq call_loop]. unfold bind.
    destruct (alpa_logged_step a (Some c) st) as (o & c' & w' & r & E & Ec).
    cbv zeta in E. rewrite E, Ec.
    match goal with
    | |- context [call_loop f t oa ohs (seq (S a) m) ?ret' (Some c') ?st'] =>
        destruct (IH (S a) ret' c' st') as (new & Hnew & Hmap)
    end.
    { cbn [Alpa.step_ct]. lia. }
    rewrite Hnew. cbn [Alpa.runtime snd].
    eexists. rewrite <- app_assoc. split; [reflexivity|].
    cbn [app map seen fst Alpa.in_input_ids Alpa.in_position_ids].
    rewrite Hmap, Hct. reflexivity.
Qed.
End AlpaPrompt.

(** X9: when a prompt is unrolled on the distributed backend, the
    executable sees, in order, position i of the prompt together with
    position ids that are all i + pad + 1, whatever the counter was
    before the call, and its first invocation starts from the initial
    cache. *)
Theorem alpa_prompt_position_ids
    {Params Logits Cache Hidden Attn W}
    (pad : Z) (params : Params) (init_cache : Cache)
    (executable : Params -> @Alpa.ExecInput Cache
                  -> M W (@Alpa.ExecOutput Logits Cache Hidden Attn))
    (t : Tensor) (oa ohs : option bool)
    (st : @Alpa.State
            (W * list (@Alpa.ExecInput Cache
                       * result (@Alpa.ExecOutput Logits Cache Hidden Attn)))) :
  (forall p i w, exists o w',
      executable p i w = (inr o, w') /\ Alpa.attention_cache o <> None) ->
  let f := Alpa.inference_func pad params init_cache
             (fun p => logged (executable p)) in
  exists new,
    snd (Alpa.runtime (snd (__call__ f t None oa ohs st)))
    = snd (Alpa.runtime st) ++ new
    /\ map (fun e => (Alpa.in_input_ids (fst e), Alpa.in_position_ids (fst e)))
         new
       = map (fun i =>
                (slice_cols t i (i + 1),
                 full_like (slice_cols t i (i + 1))
                   (Z.of_nat i + Alpa.pad_offset pad)))
           (seq 0 (shape1 t))
    /\ (forall e, nth_error new 0 = Some e ->
                  Alpa.in_cache (fst e) = init_cache).
Proof.
  intros Hexe f. rewrite call_final_state.
  destruct (shape1 t) as [|n].
  - exists []. simpl. rewrite app_nil_r. repeat split.
    intros e He. discriminate He.
  - cbn [seq call_loop]. unfold bind.
    destruct (alpa_logged_step pad params init_cache executable Hexe
                t oa ohs 0 None st) as (o & c' & w' & r & E & Ec).
    cbv zeta in E. fold f in E. rewrite E, Ec.
    match goal with
    | |- context [call_loop f t oa ohs (seq 1 n) ?ret' (Some c') ?st'] =>
        destruct (alpa_loop_handed pad params init_cache executable Hexe
                    t oa ohs n 1 ret' c' st') as (new & Hnew & Hmap)
    end.
    { reflexivity. }
    fold f in Hnew. rewrite Hnew. cbn [Alpa.runtime snd].
    eexists. rewrite <- app_assoc. split; [reflexivity|]. split.
    + cbn [app map fst snd Alpa.in_input_ids Alpa.in_position_ids].
      f_equal. exact Hmap.
    + intros e [= <-]. reflexivity.
Qed.

Lemma alpa_prompt_position_ids_witness :
  exists new,
    snd (Alpa.runtime
           (snd (__call__
                   (Alpa.inference_func (Hidden := unit) (Attn := unit)
                      1 tt [] (fun p => logged (Demo.executable p)))
                   Demo.prompt None None None (Alpa.mkState 7 (tt, [])))))
    = [] ++ new
    /\ map (fun e => (Alpa.in_input_ids (fst e), Alpa.in_position_ids (fst e)))
         new
       = [({| ncols := 1; rows := [[11]] |}, {| ncols := 1; rows := [[2]] |});
          ({| ncols := 1; rows := [[12]] |}, {| ncols := 1; rows := [[3]] |});
          ({| ncols := 1; rows := [[13]] |}, {| ncols := 1; rows := [[4]] |})]
    /\ (forall e, nth_error new 0 = Some e -> Alpa.in_cache (fst e) = []).
Proof.
  exact (alpa_prompt_position_ids (Hidden := unit) (Attn := unit)
           1 tt [] Demo.executable Demo.prompt None None
           (Alpa.mkState 7 (tt, [])) demo_executable_returns_cache).
Defined.

(** * Further properties of the training benchmark *)

(** X10: the mask has the shape of the parameters.  A path leads to a
    flag of the mask exactly when it leads to a tensor of the pytree,
    the flag is decided by that tensor alone, and a tensor without any
    dimension is excluded from weight decay like a one-dimensional
    one. *)
Theorem weight_decay_mask_keeps_structure {D}
    (pytree0 : Train.pytree (Train.Array D)) (path : list Train.key) :
  (Train.leaf_at path (Train.weight_decay_mask pytree0) = None
   <-> Train.leaf_at path pytree0 = None)
  /\ (forall b,
        Train.leaf_at path (Train.weight_decay_mask pytree0) = Some b ->
        exists x, Train.leaf_at path pytree0 = Some x
                  /\ b = (1 <? Train.ndim x)%nat)
  /\ (forall x,
        Train.leaf_at path pytree0 = Some x -> Train.ndim x = 0%nat ->
        Train.leaf_at path (Train.weight_decay_mask pytree0) = Some false)
  /\ Train.leaf_at path (Train.weight_decay_mask_aval pytree0)
     = Train.leaf_at path (Train.weight_decay_mask pytree0).
Proof.
  unfold Train.weight_decay_mask, Train.weight_decay_mask_aval.
  rewrite leaf_at_tree_map.
  destruct (Train.leaf_at path pytree0) as [x|]; simpl; repeat split;
    try discriminate; try reflexivity.
  - intros b [= <-]. exists x. split; reflexivity.
  - intros y [= <-] ->. reflexivity.
Qed.

Lemma last_cons_default {A} (l : list A) (a d : A) :
  last (a :: l) d = last l a.
Proof.
  revert a d. induction l as [|b l IH]; intros a d; [reflexivity|].
  change (last (a :: b :: l) d) with (last (b :: l) d).
  rewrite (IH b d), (IH b a). reflexivity.
Qed.

Lemma beside_log_eq {St A B L} (g : A -> M St B) a s (l : L) :
  beside_log g a (s, l) = (fst (g a s), (snd (g a s), l)).
Proof. unfold beside_log; simpl. destruct (g a s); reflexivity. Qed.

Lemma logged_eq {St A B} (g : A -> M St B) a s l :
  logged g a (s, l)
  = (fst (g a s), (snd (g a s), l ++ [(a, fst (g a s))])).
Proof. unfold logged; simpl. destruct (g a s); reflexivity. Qed.

Section TimedLoop.
Context {W TrainState Batch Key Time Latency : Type}.
Variable time_time : unit -> M W Time.
Variable train_step : TrainState * Batch * Key -> M W TrainState.
Variable minus : Time -> Time -> Latency.
Hypothesis time_returns :
  forall u w, exists now w', time_time u w = (inr now, w').
Hypothesis train_step_returns :
  forall a w, exists s w', train_step a w = (inr s, w').
Variables (batch : Batch) (rngkey : Key).

Lemma timed_loop_runs :
  forall idxs state latencies w log,
    exists outs new_latencies w',
      Bench.timed_loop (beside_log time_time) (logged train_step) minus
        idxs batch rngkey state latencies (w, log)
      = (inr (last outs state, latencies ++ new_latencies),
         (w', log ++ combine
                       (map (fun s => (s, batch, rngkey))
                          (firstn (length idxs) (state :: outs)))
                       (map inr outs)))
      /\ length outs = length idxs
      /\ length new_latencies = length idxs.
Proof.
  induction idxs as [|i idxs IH]; intros state latencies w log.
  - exists [], [], w. simpl. unfold mret. now rewrite !app_nil_r.
  - cbn [Bench.timed_loop]. unfold bind.
    destruct (time_returns tt w) as (tic & w1 & E1).
    rewrite beside_log_eq, E1. cbn [fst snd].
    destruct (train_step_returns (state, batch, rngkey) w1)
      as (s1 & w2 & E2).
    rewrite logged_eq, E2. cbn [fst snd].
    destruct (time_returns tt w2) as (tok & w3 & E3).
    rewrite beside_log_eq, E3. cbn [fst snd].
    destruct (IH s1 (latencies ++ [minus tok tic]) w3
                (log ++ [((state, batch, rngkey), inr s1)]))
      as (outs & lats & w' & E & Ho & Hl).
    exists (s1 :: outs), (minus tok tic :: lats), w'.
    split; [|cbn [length]; split; congruence].
    etransitivity; [exact E|].
    rewrite last_cons_default, <- !app_assoc. reflexivity.
Qed.
End TimedLoop.

(** X15: the timed loop of the benchmark.  With a clock and a training
    step that return, [niter] iterations return [niter] latencies and
    make [niter] invocations of the step (none when [niter <= 0]), each
    on the same batch and key and on the state the one before it
    returned, the first on the initial state; the state returned at the
    end is the last one the step returned. *)
Theorem timed_iterations_thread_the_state
    {W TrainState Batch Key Time Latency}
    (time_time : unit -> M W Time)
    (train_step : TrainState * Batch * Key -> M W TrainState)
    (minus : Time -> Time -> Latency)
    (niter : Z) (batch : Batch) (rngkey : Key) (state : TrainState) (w : W) :
  (forall u w0, exists now w', time_time u w0 = (inr now, w')) ->
  (forall a w0, exists s w', train_step a w0 = (inr s, w')) ->
  exists outs latencies w',
    Bench.timed_iterations (beside_log time_time) (logged train_step) minus
      niter batch rngkey state (w, [])
    = (inr (last outs state, latencies),
       (w', combine
              (map (fun s => (s, batch, rngkey))
                 (firstn (Z.to_nat niter) (state :: outs)))
              (map inr outs)))
    /\ length outs = Z.to_nat niter
    /\ length latencies = Z.to_nat niter.
Proof.
  intros Htime Hstep. unfold Bench.timed_iterations.
  destruct (timed_loop_runs time_time train_step minus Htime Hstep
              batch rngkey (seq 0 (Z.to_nat niter)) state [] w [])
    as (outs & lats & w' & E & Ho & Hl).
  rewrite length_seq in *. exists outs, lats, w'. repeat split; assumption.
Qed.

Lemma timed_iterations_thread_the_state_witness :
  exists outs latencies w',
    Bench.timed_iterations (beside_log Demo.clock) (logged Demo.train_step)
      Z.sub 2 tt tt 0%nat (0, [])
    = (inr (last outs 0%nat, latencies),
       (w', combine
              (map (fun s => (s, tt, tt))
                 (firstn (Z.to_nat 2) (0%nat :: outs)))
              (map inr outs)))
    /\ length outs = Z.to_nat 2
    /\ length latencies = Z.to_nat 2.
Proof.
  apply (timed_iterations_thread_the_state Demo.clock Demo.train_step Z.sub
           2 tt tt 0%nat 0).
  - intros u w0. eexists. eexists. reflexivity.
  - intros a w0. eexists. eexists. reflexivity.
Defined.

(** * Properties of the construction of the model *)

(** ** The string tests and the splitting of the model name *)

Lemma startswith_spec sub :
  forall s, startswith sub s = true <-> exists post, s = (sub ++ post)%string.
Proof.
  induction sub as [|a sub IH]; intros s; simpl.
  - split; [intros _; now exists s | reflexivity].
  - destruct s as [|b s].
    + split; [discriminate | intros [post H]; discriminate H].
    + rewrite andb_true_iff, Ascii.eqb_eq, IH. split.
      * intros [-> [post ->]]. now exists post.
      * intros [post [= -> ->]]. split; [reflexivity | now exists post].
Qed.

(** [sub in s] holds exactly when [s] is some text, then [sub], then
    some text. *)
Lemma contains_spec sub :
  forall s,
    contains sub s = true
    <-> exists pre post, s = (pre ++ sub ++ post)%string.
Proof.
  induction s as [|c s IH].
  - cbn [contains]. rewrite orb_false_r, startswith_spec. split.
    + intros [post H]. exists EmptyString, post. exact H.
    + intros [[|c pre] [post H]]; [now exists post | discriminate H].
  - cbn [contains]. rewrite orb_true_iff, startswith_spec, IH. split.
    + intros [[post H]|[pre [post H]]].
      * exists EmptyString, post. exact H.
      * exists (String c pre), post. simpl. now rewrite H.
    + intros [[|c' pre] [post H]].
      * left. now exists post.
      * right. injection H as _ H. now exists pre, post.
Qed.

Lemma not_contains sub s :
  (forall pre post, s <> (pre ++ sub ++ post)%string) ->
  contains sub s = false.
Proof.
  intros H. destruct (contains sub s) eqn:E; [|reflexivity].
  apply contains_spec in E as (pre & post & E). now apply H in E.
Qed.

Lemma contains_false sub s :
  contains sub s = false ->
  forall pre post, s <> (pre ++ sub ++ post)%string.
Proof.
  intros E pre post H.
  assert (contains sub s = true) by (apply contains_spec; now exists pre, post).
  congruence.
Qed.

Lemma contains_sep_cons sep c s :
  contains (String sep EmptyString) (String c s)
  = (Ascii.eqb c sep || contains (String sep EmptyString) s)%bool.
Proof.
  cbn [contains startswith]. rewrite andb_true_r, Ascii.eqb_sym.
  reflexivity.
Qed.

(** A text without the separator is a single piece. *)
Lemma split_no_sep sep :
  forall s,
    contains (String sep EmptyString) s = false -> split sep s = [s].
Proof.
  induction s as [|c s IH]; [reflexivity|].
  rewrite contains_sep_cons, orb_false_iff. intros [Hc Hs].
  cbn [split]. rewrite Hc, (IH Hs). reflexivity.
Qed.

(** The first piece ends at the first separator. *)
Lemma split_app_sep sep rest :
  forall a,
    contains (String sep EmptyString) a = false ->
    split sep (a ++ String sep rest) = a :: split sep rest.
Proof.
  induction a as [|c a IH].
  - intros _. cbn [append split]. now rewrite Ascii.eqb_refl.
  - rewrite contains_sep_cons, orb_false_iff. intros [Hc Ha].
    cbn [append split]. rewrite Hc, (IH Ha). reflexivity.
Qed.

(** Splitting loses nothing: joining the pieces gives the text back,
    and no piece holds the separator. *)
Lemma join_split sep :
  forall s,
    join sep (split sep s) = s
    /\ Forall (fun piece => contains (String sep EmptyString) piece = false)
         (split sep s)
    /\ split sep s <> [].
Proof.
  induction s as [|c s (IHj & IHf & IHn)].
  - repeat split; [repeat constructor | discriminate].
  - cbn [split]. destruct (Ascii.eqb c sep) eqn:Ec.
    + apply Ascii.eqb_eq in Ec. subst c. repeat split.
      * destruct (split sep s) as [|p ps] eqn:E; [congruence|].
        cbn [join append]. cbn [join] in IHj. now rewrite IHj.
      * constructor; [reflexivity | exact IHf].
      * discriminate.
    + destruct (split sep s) as [|p ps] eqn:E; [congruence|].
      repeat split.
      * destruct ps as [|q ps]; cbn [join append] in *; now rewrite IHj.
      * inversion IHf as [|? ? Hp Hps]; subst. constructor; [|exact Hps].
        rewrite contains_sep_cons, Ec, Hp. reflexivity.
      * discriminate.
Qed.

(** ** [get_model] *)

(** X11: a model name that holds none of the texts "gpt",
    "facebook/opt" and "alpa/opt" selects no backend: [get_model] makes
    no library call and raises on the local that was never bound. *)
Theorem get_model_unknown_name_raises
    (upper : string -> string) (model_name device : string)
    (dummy soa sohs : bool) (num_hosts : Z)
    (made : list GetModel.external_call) :
  (forall pre post, model_name <> (pre ++ "gpt" ++ post)%string) ->
  (forall pre post, model_name <> (pre ++ "facebook/opt" ++ post)%string) ->
  (forall pre post, model_name <> (pre ++ "alpa/opt" ++ post)%string) ->
  GetModel.get_model upper model_name device dummy soa sohs num_hosts made
  = (inl (UnboundLocalError "inference_func"), made).
Proof.
  intros H1 H2 H3. unfold GetModel.get_model.
  rewrite (not_contains _ _ H1), (not_contains _ _ H2), (not_contains _ _ H3).
  reflexivity.
Qed.

Lemma get_model_unknown_name_raises_witness :
  GetModel.get_model Demo.upper "bert-base-uncased" "cuda" false false false
    1 []
  = (inl (UnboundLocalError "inference_func"), []).
Proof.
  apply get_model_unknown_name_raises; apply contains_false; reflexivity.
Defined.

(** X12: the name handed to the distributed backend is the text after
    the first hyphen.  An "alpa/opt" name without a hyphen makes
    [get_model] raise [IndexError], after the runtime was initialised
    and asked for its hosts and before any configuration is looked
    up. *)
Theorem get_model_alpa_name_without_hyphen_raises
    (upper : string -> string) (model_name device : string)
    (dummy soa sohs : bool) (num_hosts : Z)
    (made : list GetModel.external_call) :
  (forall pre post, model_name <> (pre ++ "gpt" ++ post)%string) ->
  (forall pre post, model_name <> (pre ++ "facebook/opt" ++ post)%string) ->
  (exists pre post, model_name = (pre ++ "alpa/opt" ++ post)%string) ->
  (forall pre post, model_name <> (pre ++ "-" ++ post)%string) ->
  GetModel.get_model upper model_name device dummy soa sohs num_hosts made
  = (inl IndexError,
     made ++ [GetModel.alpa_init; GetModel.get_global_cluster_num_hosts]).
Proof.
  intros H1 H2 H3 H4. unfold GetModel.get_model.
  rewrite (not_contains _ _ H1), (not_contains _ _ H2).
  apply contains_spec in H3. rewrite H3.
  unfold bind, GetModel.external, lift_result.
  rewrite (split_no_sep "-"%char model_name (not_contains _ _ H4)).
  cbn [index nth_error]. rewrite <- app_assoc. reflexivity.
Qed.

Lemma get_model_alpa_name_without_hyphen_raises_witness :
  GetModel.get_model Demo.upper "alpa/opt" "cuda" false false false 1 []
  = (inl IndexError,
     [GetModel.alpa_init; GetModel.get_global_cluster_num_hosts]).
Proof.
  apply (get_model_alpa_name_without_hyphen_raises Demo.upper "alpa/opt"
           "cuda" false false false 1 []).
  - apply contains_false; reflexivity.
  - apply contains_false; reflexivity.
  - exists ""%string, ""%string. reflexivity.
  - apply contains_false; reflexivity.
Defined.

(** X13: a name that holds "gpt" gets the plain backend with the
    model's own configuration, whatever else it holds; otherwise a name
    that holds "facebook/opt" gets the causal-LM backend, loaded in
    half precision exactly when the device text holds "cuda".  Neither
    touches the distributed runtime, and neither reads [dummy], the
    two support flags or the number of hosts. *)
Theorem get_model_single_process_backends
    (upper : string -> string) (model_name device : string)
    (dummy soa sohs : bool) (num_hosts : Z)
    (made : list GetModel.external_call) :
  ((exists pre post, model_name = (pre ++ "gpt" ++ post)%string) ->
   GetModel.get_model upper model_name device dummy soa sohs num_hosts made
   = (inr (GetModel.PlainBackend, GetModel.RawModelConfig),
      made ++ [GetModel.GPT2LMHeadModel_from_pretrained model_name;
               GetModel.raw_model_to device]))
  /\ ((forall pre post, model_name <> (pre ++ "gpt" ++ post)%string) ->
      (exists pre post,
          model_name = (pre ++ "facebook/opt" ++ post)%string) ->
      exists torch_dtype,
        GetModel.get_model upper model_name device dummy soa sohs
          num_hosts made
        = (inr (GetModel.CausalLMBackend, GetModel.FieldsCopiedFromRawModel),
           made ++ [GetModel.OPTForCausalLM_from_pretrained model_name
                      torch_dtype;
                    GetModel.raw_model_to device;
                    GetModel.print_config])
        /\ (torch_dtype = GetModel.float16
            <-> exists pre post, device = (pre ++ "cuda" ++ post)%string)).
Proof.
  unfold GetModel.get_model. split.
  - intros H. apply contains_spec in H. rewrite H.
    unfold bind, GetModel.external, mret. rewrite <- app_assoc. reflexivity.
  - intros H1 H2. rewrite (not_contains _ _ H1).
    apply contains_spec in H2. rewrite H2.
    eexists. split.
    + unfold bind, GetModel.external, mret. rewrite <- !app_assoc.
      reflexivity.
    + rewrite <- contains_spec.
      destruct (contains "cuda" device); split; congruence.
Qed.

Lemma append_empty_r s : (s ++ "")%string = s.
Proof. induction s as [|c s IH]; simpl; [reflexivity | now rewrite IH]. Qed.

(** X14: for a name that selects the distributed backend and reads
    [first-piece-...], the configuration is looked up under the
    upper-cased piece with at least two pipeline stages (the number of
    hosts when there are more), the weights are loaded from the
    directory named after it, and the cache is created for a batch of
    one; [dummy] goes to the loading of the weights and of the cache,
    the two support flags to the executable. *)
Theorem get_model_alpa_calls
    (upper : string -> string) (first piece tail device : string)
    (dummy soa sohs : bool) (num_hosts : Z)
    (made : list GetModel.external_call) :
  let model_name := (first ++ "-" ++ piece ++ tail)%string in
  (forall pre post, model_name <> (pre ++ "gpt" ++ post)%string) ->
  (forall pre post, model_name <> (pre ++ "facebook/opt" ++ post)%string) ->
  (exists pre post, model_name = (pre ++ "alpa/opt" ++ post)%string) ->
  (forall pre post, first <> (pre ++ "-" ++ post)%string) ->
  (forall pre post, piece <> (pre ++ "-" ++ post)%string) ->
  (tail = ""%string \/ exists rest, tail = ("-" ++ rest)%string) ->
  let num_pp_stages := Z.max 2 num_hosts in
  GetModel.get_model upper model_name device dummy soa sohs num_hosts made
  = (inr (GetModel.AlpaBackend, GetModel.DefaultInferenceFuncConfig),
     made ++ [GetModel.alpa_init;
              GetModel.get_global_cluster_num_hosts;
              GetModel.get_config (upper piece) num_pp_stages;
              GetModel.get_pipeshard_executable soa sohs;
              GetModel.load_params_dis_array
                ("/home/ubuntu/opt_weights/" ++ upper piece ++ "_np") dummy;
              GetModel.init_cache_dis_array 1 dummy;
              GetModel.executable_sync])
  /\ 2 <= num_pp_stages /\ num_hosts <= num_pp_stages.
Proof.
  intros model_name H1 H2 H3 Hfirst Hpiece Htail num_pp_stages.
  split; [|subst num_pp_stages; lia].
  unfold GetModel.get_model.
  rewrite (not_contains _ _ H1), (not_contains _ _ H2).
  apply contains_spec in H3. rewrite H3.
  assert (Hsplit : index (split "-"%char model_name) 1 = inr piece).
  { subst model_name. cbn [append].
    rewrite (split_app_sep "-"%char _ first (not_contains _ _ Hfirst)).
    destruct Htail as [->|[rest ->]].
    - rewrite append_empty_r.
      rewrite (split_no_sep "-"%char piece (not_contains _ _ Hpiece)).
      reflexivity.
    - cbn [append].
      rewrite (split_app_sep "-"%char _ piece (not_contains _ _ Hpiece)).
      reflexivity. }
  unfold bind, GetModel.external, lift_result, mret.
  rewrite Hsplit, <- !app_assoc. reflexivity.
Qed.

Lemma get_model_alpa_calls_witness :
  GetModel.get_model Demo.upper "alpa/opt-125m" "cuda" true false false 1 []
  = (inr (GetModel.AlpaBackend, GetModel.DefaultInferenceFuncConfig),
     [GetModel.alpa_init;
      GetModel.get_global_cluster_num_hosts;
      GetModel.get_config "125M" 2;
      GetModel.get_pipeshard_executable false false;
      GetModel.load_params_dis_array "/home/ubuntu/opt_weights/125M_np" true;
      GetModel.init_cache_dis_array 1 true;
      GetModel.executable_sync]).
Proof.
  apply (proj1 (get_model_alpa_calls Demo.upper "alpa/opt" "125m" ""
                  "cuda" true false false 1 []
                  ltac:(apply contains_false; reflexivity)
                  ltac:(apply contains_false; reflexivity)
                  ltac:(exists ""%string, "-125m"%string; reflexivity)
                  ltac:(apply contains_false; reflexivity)
                  ltac:(apply contains_false; reflexivity)
                  ltac:(left; reflexivity))).
Defined.

(** * What every invocation of a call receives *)

Lemma loop_invocations_flags {Logits Cache Hidden Attn St}
    (f : InferenceFunc Logits Cache Hidden Attn St) t oa ohs :
  forall idxs pkv s k inv,
    nth_error (loop_invocations f t oa ohs idxs pkv s) k = Some inv ->
    snd (fst (fst inv)) = oa /\ snd (fst inv) = ohs.
Proof.
  induction idxs as [|i idxs IH]; intros pkv s k inv; simpl.
  - destruct k; discriminate.
  - destruct (f (slice_cols t i (i + 1)) pkv oa ohs s) as [r s'].
    destruct k as [|k]; simpl.
    + intros [= <-]. split; reflexivity.
    + destruct r as [e|o]; [destruct k; discriminate|]. apply IH.
Qed.

(** X16: whatever the backend does, every invocation a call makes
    receives the whole batch at one position (for a well-formed input,
    row by row the entry at that position) and the call's own
    [output_attentions] and [output_hidden_states], each in its own
    place. *)
Theorem call_feeds_one_position_of_the_batch
    {Logits Cache Hidden Attn St}
    (f : InferenceFunc Logits Cache Hidden Attn St)
    (t : Tensor) (pkv : option Cache)
    (output_attentions output_hidden_states : option bool) (s : St)
    (i : nat) (inv : @Invocation Logits Cache Hidden Attn) :
  nth_error
    (snd (snd (__call__ (traced f) t pkv output_attentions
                 output_hidden_states (s, [])))) i = Some inv ->
  (i < shape1 t)%nat
  /\ shape0 (inv_input_ids inv) = shape0 t
  /\ shape1 (inv_input_ids inv) = 1%nat
  /\ (wf_tensor t ->
      rows (inv_input_ids inv) = map (fun r => [nth i r 0]) (rows t))
  /\ snd (fst (fst inv)) = output_attentions
  /\ snd (fst inv) = output_hidden_states.
Proof.
  rewrite call_traced. simpl. intros H.
  destruct (loop_invocations_flags f t _ _ _ _ _ _ _ H) as (Hoa & Hohs).
  apply loop_invocations_input in H as (j & Hj & E).
  pose proof (nth_error_Some (seq 0 (shape1 t)) i) as Hlt.
  rewrite Hj, length_seq in Hlt.
  assert (i < shape1 t)%nat as Hi by (apply Hlt; discriminate).
  rewrite (nth_error_nth' _ 0%nat) in Hj by now rewrite length_seq.
  rewrite seq_nth in Hj by assumption. injection Hj as <-.
  rewrite E. repeat split; auto.
  - unfold shape0, slice_cols; simpl. apply length_map.
  - now apply slice_cols_single_shape.
  - intros Hwf. now apply slice_cols_single_rows.
Qed.

Lemma call_feeds_one_position_of_the_batch_witness :
  shape0 {| ncols := 1; rows := [[12]] |} = 1%nat
  /\ rows {| ncols := 1; rows := [[12]] |} = [[12]].
Proof.
  destruct (call_feeds_one_position_of_the_batch Demo.failing_backend
              Demo.prompt None (Some true) (Some false) 0%nat 1
              ({| ncols := 1; rows := [[12]] |}, Some [[11]],
               Some true, Some false,
               inr (mkInferenceFuncOutput
                      (Some {| ncols := 1; rows := [[12]] |})
                      (Some [[11]; [12]]) None None))
              eq_refl)
    as (_ & H0 & _ & Hrows & _).
  split; [exact H0|]. apply Hrows. repeat constructor.
Defined.
